(** * CodeGram backend: feed aggregation, fan-out and notifications

    A shallow embedding of the feed controller ([getFeed]), the socket
    layer ([initializeSocket], [emitToFollowers]), the notification
    service ([createNotification], [markNotificationsAsRead]) and the
    bug controller ([createBug], [updateBugStatus]), with the properties
    the design document states about them. *)

From stdpp Require Import gmap strings list sorting.

Local Open Scope Z_scope.

(** ** JavaScript primitives used by the controllers *)

Module Js.

(** [parseInt(s) || d]: [None] stands for [NaN] (parameter absent or not
    numeric); [NaN] and [0] are falsy, so both yield the default. *)
Definition or_default (parsed : option Z) (d : Z) : Z :=
  match parsed with
  | Some n => if decide (n = 0) then d else n
  | None => d
  end.

(** Truthiness of a string: only the empty string is falsy. *)
Definition truthy (s : string) : bool := bool_decide (s ≠ "").

(** [s.length] counts UTF-16 code units.  The strings of this development
    hold the UTF-8 bytes of the text: a byte below 0x80 and the lead byte
    of a sequence of two or three bytes start a character of one unit, the
    lead byte of a sequence of four bytes starts one of two units (a
    surrogate pair), and a continuation byte (0x80 to 0xBF) starts none. *)
Definition utf16_units (b : Ascii.ascii) : nat :=
  let n := Ascii.nat_of_ascii b in
  if decide (n < 128)%nat then 1%nat
  else if decide (n < 192)%nat then 0%nat
  else if decide (n < 240)%nat then 1%nat
  else 2%nat.

Fixpoint utf16_length (s : string) : nat :=
  match s with
  | EmptyString => 0%nat
  | String b s => (utf16_units b + utf16_length s)%nat
  end.

(** *** Dates

    A [Date] holds the milliseconds since the epoch in UTC; its local-time
    methods go through the time zone of the host.  A zone gives the offset
    from UTC in force at a UTC instant and the one in force at a local
    wall-clock time; the two differ around a change of offset.  All values
    stay within the range of [Date]. *)
Record Zone := {
  offset_at : Z → Z;
  offset_of_local : Z → Z
}.

Definition msPerHour : Z := 3600000.
Definition msPerDay : Z := 86400000.

Definition LocalTime (tz : Zone) (t : Z) : Z := t + offset_at tz t.
Definition UTC (tz : Zone) (t : Z) : Z := t - offset_of_local tz t.

(** [d.getHours()] *)
Definition getHours (tz : Zone) (t : Z) : Z := (LocalTime tz t `div` msPerHour) `mod` 24.

(** [d.setHours(hour)]: the local day and the minutes, seconds and
    milliseconds of the local time are kept, the hour is replaced, also by
    one outside 0..23. *)
Definition setHours (tz : Zone) (t hour : Z) : Z :=
  let lt := LocalTime tz t in
  UTC tz ((lt `div` msPerDay) * msPerDay + hour * msPerHour + lt `mod` msPerHour).

(** A host whose offset from UTC never changes. *)
Definition fixed_zone (offset : Z) : Zone :=
  {| offset_at := λ _, offset; offset_of_local := λ _, offset |}.

(** [Array.prototype.slice(start, end)]: a negative index counts from the
    end, every index is clamped to the array. *)
Definition clamp_index (len i : Z) : Z :=
  if decide (i < 0) then Z.max (len + i) 0 else Z.min i len.

Definition slice {A} (start stop : Z) (l : list A) : list A :=
  let len := Z.of_nat (length l) in
  let k := clamp_index len start in
  let final := clamp_index len stop in
  take (Z.to_nat (final - k)) (drop (Z.to_nat k) l).

(** [Array.prototype.sort(cmp)] is stable; [cmp a b > 0] puts [a] after
    [b].  Computed by insertion from the right, so that an element moves
    past those that were behind it only when the comparator demands it. *)
Section Sort.
Context {A : Type} (cmp : A → A → Z).

Fixpoint insert (x : A) (l : list A) : list A :=
  match l with
  | [] => [x]
  | y :: l' => if decide (0 < cmp x y) then y :: insert x l' else x :: l
  end.

Definition sort (l : list A) : list A := foldr insert [] l.
End Sort.

(** *** Numbers are IEEE-754 doubles

    A double constant is [mant / 2 ^ expo] with a 53-bit mantissa. *)
Record Double := { mant : Z; expo : Z }.

Definition lit_0_7 : Double := {| mant := 6305039478318694; expo := 53 |}.
Definition lit_0_2 : Double := {| mant := 7205759403792794; expo := 55 |}.
Definition lit_0_1 : Double := {| mant := 7205759403792794; expo := 56 |}.

(** Round a positive integer to 53 significant bits, to nearest, ties to
    the even mantissa. *)
Definition round53_pos (p : Z) : Z :=
  let s := Z.max 0 (Z.log2 p - 52) in
  let q := p / 2 ^ s in
  let r := p `mod` 2 ^ s in
  if decide (2 ^ s < 2 * r) then (q + 1) * 2 ^ s
  else if decide (2 * r = 2 ^ s) then (if Z.odd q then (q + 1) * 2 ^ s else q * 2 ^ s)
  else q * 2 ^ s.

Definition round53 (p : Z) : Z := Z.sgn p * round53_pos (Z.abs p).

(** [Math.ceil(n * c)] for an integer [n] and a double constant [c]: the
    product is rounded to a double first, then taken to its ceiling. *)
Definition ceil_mul (n : Z) (c : Double) : Z :=
  - ((- round53 (n * mant c)) / 2 ^ expo c).

End Js.

(** ** The content store *)

Inductive Kind := snippet | doc | bug.

Record Follow := { followerId : string; followingId : string }.

(** Columns and relations the three content models share.  [likes] and
    [bookmarks] hold the user ids of the Like and Bookmark rows of the item,
    [comments] the number of its Comment rows. *)
Record Content := {
  id : string;
  title : string;
  authorId : string;
  createdAt : Z;
  tags : list string;
  likes : list string;
  bookmarks : list string;
  comments : nat
}.

Record Snippet := { snippet_base : Content; snippet_isPublic : bool }.
Record Doc := { doc_base : Content; doc_isPublic : bool }.

Inductive BugStatus := OPEN | IN_PROGRESS | RESOLVED | CLOSED.
Inductive BugSeverity := LOW | MEDIUM | HIGH | CRITICAL.

Record Bug := {
  bug_base : Content;
  bug_description : string;
  bug_content : string;
  bug_severity : BugSeverity;
  bug_status : BugStatus;
  bug_media : list string;
  bug_expiresAt : Z
}.

Inductive NotificationType := LIKE | COMMENT | FOLLOW | REPLY | BUG_STATUS_UPDATE.

Record Notification := {
  n_id : string;
  n_type : NotificationType;
  recipientId : string;
  senderId : string;
  read : bool;
  n_createdAt : Z;
  snippetId : option string;
  docId : option string;
  bugId : option string;
  commentId : option string
}.

(** The columns of a comment that tie it to a bug and to the comment it
    replies to. *)
Record Comment := {
  c_id : string;
  c_bugId : option string;
  c_parentId : option string
}.

Record Db := {
  follows : list Follow;
  snippets : list Snippet;
  docs : list Doc;
  bugs : list Bug;
  notifications : list Notification
}.

(** Calls that can reject: a store operation (connection lost, constraint
    violated) or a socket emit. *)
Inductive Op :=
  | FollowFindMany | SnippetFindMany | DocFindMany | BugFindMany
  | BugFindUnique | BugCreate | BugUpdate
  | NotificationCreate | NotificationUpdateMany | SocketEmit.

Definition Faults := Op → bool.
Definition no_faults : Faults := λ _, false.

Global Instance Follow_eq_dec : EqDecision Follow.
Proof. solve_decision. Defined.
Global Instance Kind_eq_dec : EqDecision Kind.
Proof. solve_decision. Defined.
Global Instance Op_eq_dec : EqDecision Op.
Proof. solve_decision. Defined.

Module Prisma.

(** [orderBy: { createdAt: 'desc' }].  The database leaves the order of
    rows with equal [createdAt] open; the model keeps table order. *)
Definition newest_first {A} (key : A → Z) : list A → list A :=
  Js.sort (λ a b, key b - key a).

(** [take: n, skip: k] on the ordered rows: the first [n] rows after the
    first [k]; with a negative [n] the query pages backwards, the last
    [- n] rows before the last [k], still in the requested order.  The
    callers below never pass a negative [k], which Prisma rejects. *)
Definition window {A} (n skip : Z) (l : list A) : list A :=
  if decide (0 ≤ n) then take (Z.to_nat n) (drop (Z.to_nat skip) l)
  else reverse (take (Z.to_nat (- n)) (drop (Z.to_nat skip) (reverse l))).

(** [findMany({ where, orderBy: { createdAt: 'desc' }, take, skip })]. *)
Definition findMany {A} (key : A → Z) (where_ : A → Prop)
    `{∀ x, Decision (where_ x)} (n skip : Z) (table : list A) : list A :=
  window n skip (newest_first key (filter where_ table)).

End Prisma.

(** ** The feed controller *)

Module Feed.

Inductive Row := SnippetRow (s : Snippet) | DocRow (d : Doc) | BugRow (b : Bug).

Definition row_base (r : Row) : Content :=
  match r with
  | SnippetRow s => snippet_base s
  | DocRow d => doc_base d
  | BugRow b => bug_base b
  end.

(** An item of the response: the row itself ([...item]), its tag, the
    counts, and the viewer's flags, which the public feed leaves out. *)
Record FeedItem := {
  fi_row : Row;
  fi_type : Kind;
  isLiked : option bool;
  isBookmarked : option bool;
  likesCount : nat;
  commentsCount : nat;
  bookmarksCount : nat
}.

Definition item_createdAt (i : FeedItem) : Z := createdAt (row_base (fi_row i)).

Record Query := { q_page : option Z; q_limit : option Z }.

Record FeedPage := { data : list FeedItem; total : Z; page : Z; hasMore : bool }.

Inductive Response := Json (p : FeedPage) | InternalServerError.

(** [likes: { where: { userId } }] then [item.likes.length > 0]. *)
Definition has_row_of (userId : string) (owners : list string) : bool :=
  bool_decide (0 < length (filter (λ u, u = userId) owners))%nat.

Definition personal_item (userId : string) (k : Kind) (r : Row) : FeedItem :=
  let c := row_base r in
  {| fi_row := r; fi_type := k;
     isLiked := Some (has_row_of userId (likes c));
     isBookmarked := Some (has_row_of userId (bookmarks c));
     likesCount := length (likes c);
     commentsCount := comments c;
     bookmarksCount := length (bookmarks c) |}.

Definition public_item (s : Snippet) : FeedItem :=
  let c := snippet_base s in
  {| fi_row := SnippetRow s; fi_type := snippet;
     isLiked := None; isBookmarked := None;
     likesCount := length (likes c);
     commentsCount := comments c;
     bookmarksCount := length (bookmarks c) |}.

Definition followingIds (db : Db) (userId : string) : list string :=
  (followingId <$> filter (λ f, followerId f = userId) (follows db)) ++ [userId].

Definition snippet_quota (limit : Z) : Z := Js.ceil_mul limit Js.lit_0_7.
Definition doc_quota (limit : Z) : Z := Js.ceil_mul limit Js.lit_0_2.
Definition bug_quota (limit : Z) : Z := Js.ceil_mul limit Js.lit_0_1.

Definition snippet_candidates (db : Db) (userId : string) (limit : Z) : list Snippet :=
  Prisma.findMany (λ s, createdAt (snippet_base s))
    (λ s, authorId (snippet_base s) ∈ followingIds db userId ∧ snippet_isPublic s = true)
    (snippet_quota limit) 0 (snippets db).

Definition doc_candidates (db : Db) (userId : string) (limit : Z) : list Doc :=
  Prisma.findMany (λ d, createdAt (doc_base d))
    (λ d, authorId (doc_base d) ∈ followingIds db userId ∧ doc_isPublic d = true)
    (doc_quota limit) 0 (docs db).

Definition bug_candidates (db : Db) (now : Z) (userId : string) (limit : Z) : list Bug :=
  Prisma.findMany (λ b, createdAt (bug_base b))
    (λ b, authorId (bug_base b) ∈ followingIds db userId ∧ now < bug_expiresAt b)
    (bug_quota limit) 0 (bugs db).

(** The spread of the three mapped result arrays into one array. *)
Definition concatenated (db : Db) (now : Z) (userId : string) (limit : Z) : list FeedItem :=
  (personal_item userId snippet ∘ SnippetRow <$> snippet_candidates db userId limit)
  ++ (personal_item userId doc ∘ DocRow <$> doc_candidates db userId limit)
  ++ (personal_item userId bug ∘ BugRow <$> bug_candidates db now userId limit).

(** [(a, b) => new Date(b.createdAt).getTime() - new Date(a.createdAt).getTime()] *)
Definition by_date (a b : FeedItem) : Z := item_createdAt b - item_createdAt a.

Definition merged (db : Db) (now : Z) (userId : string) (limit : Z) : list FeedItem :=
  Js.sort by_date (concatenated db now userId limit).

Definition public_snippets (db : Db) (limit skip : Z) : list Snippet :=
  Prisma.findMany (λ s, createdAt (snippet_base s))
    (λ s, snippet_isPublic s = true) limit skip (snippets db).

(** [getFeed]: [now] is the clock read by [new Date()] in the bug query;
    a rejected store call lands in the [catch] and answers 500. *)
Definition getFeed (f : Faults) (db : Db) (now : Z) (userId : string) (q : Query)
    : Response :=
  let page := Js.or_default (q_page q) 1 in
  let limit := Js.or_default (q_limit q) 10 in
  let skip := (page - 1) * limit in
  if f FollowFindMany then InternalServerError
  else if f SnippetFindMany || f DocFindMany || f BugFindMany then InternalServerError
  else
    let feedItems := merged db now userId limit in
    let paginatedItems := Js.slice skip (skip + limit) feedItems in
    if bool_decide (length feedItems = 0%nat) && bool_decide (page = 1) then
      let publicSnippets := public_snippets db limit skip in
      let publicFeedItems := public_item <$> publicSnippets in
      Json {| data := publicFeedItems;
              total := Z.of_nat (length publicFeedItems);
              page := page;
              hasMore := bool_decide (Z.of_nat (length publicSnippets) = limit) |}
    else
      Json {| data := paginatedItems;
              total := Z.of_nat (length feedItems);
              page := page;
              hasMore := bool_decide (skip + limit < Z.of_nat (length feedItems)) |}.

(** The items a response carries (none on a failure). *)
Definition items (r : Response) : list FeedItem :=
  match r with Json p => data p | InternalServerError => [] end.

End Feed.

(** ** Process state and asynchronous code

    The handlers run one after the other on a single event loop; an
    [async] function is a state transformer that returns or throws. *)

Inductive Payload :=
  | NotificationPayload (n : Notification)
  | BugPayload (b : Bug)
  | SnippetPayload (s : Snippet).

(** One [io.to(room).emit(event, payload)] call. *)
Record Emit := { room : string; event : string; payload : Payload }.

(** One packet written to one connection. *)
Record Packet := { to_socket : string; p_event : string; p_payload : Payload }.

Inductive Error :=
  | StoreError (op : Op)
  | SocketNotInitialized
  | EmitFailed
  | ValidationError.

(** A [console.error] line of [emitToFollowers]. *)
Record ErrorLine := { log_event : string; log_author : string; log_error : Error }.

(** [io] is the module-level [let io: Server]: [None] until
    [initializeSocket] ran, then the room table of the server's adapter,
    from room name to the set of socket ids in it. *)
Record World := {
  db : Db;
  io : option (gmap string (gset string));
  sent : list Emit;
  delivered : list Packet;
  console : list ErrorLine
}.

Definition M (A : Type) : Type := World → World * (Error + A).

Global Instance M_ret : MRet M := λ A x w, (w, inr x).
Global Instance M_bind : MBind M := λ A B k m w,
  match m w with
  | (w', inr x) => k x w'
  | (w', inl e) => (w', inl e)
  end.
Global Instance M_throw : MThrow Error M := λ A e w, (w, inl e).

(** [try { body } catch (error) { handler(error) }] *)
Definition try_catch {A} (body : M A) (handler : Error → M A) : M A := λ w,
  match body w with
  | (w', inl e) => handler e w'
  | r => r
  end.

(** A call whose promise nobody awaits: its effects happen, its outcome is
    dropped. *)
Definition detached {A} (m : M A) : M () := λ w, ((m w).1, inr ()).

Fixpoint for_each {A} (body : A → M ()) (l : list A) : M () :=
  match l with
  | [] => mret ()
  | x :: l' => _ ← body x; for_each body l'
  end.

Definition set_db (d : Db) (w : World) : World :=
  {| db := d; io := io w; sent := sent w; delivered := delivered w; console := console w |}.

Definition set_io (r : gmap string (gset string)) (w : World) : World :=
  {| db := db w; io := Some r; sent := sent w; delivered := delivered w; console := console w |}.

(** ** The socket layer *)

Module Socket.

(** *** The socket.io adapter: [socket.join], [socket.leave], the
    departure of a closed socket, and the fan-out of one emit. *)
Definition members (rooms : gmap string (gset string)) (r : string) : gset string :=
  default ∅ (rooms !! r).

Definition join (sid r : string) (rooms : gmap string (gset string))
    : gmap string (gset string) :=
  <[r := members rooms r ∪ {[sid]}]> rooms.

Definition without (sid : string) (s : gset string) : option (gset string) :=
  let s' := s ∖ {[sid]} in if decide (s' = ∅) then None else Some s'.

Definition leave (sid r : string) (rooms : gmap string (gset string))
    : gmap string (gset string) :=
  match rooms !! r with
  | Some s => match without sid s with
              | Some s' => <[r := s']> rooms
              | None => delete r rooms
              end
  | None => rooms
  end.

Definition leave_all (sid : string) (rooms : gmap string (gset string))
    : gmap string (gset string) :=
  omap (without sid) rooms.

Definition packets (rooms : gmap string (gset string)) (e : Emit) : list Packet :=
  (λ sid, {| to_socket := sid; p_event := event e; p_payload := payload e |})
    <$> elements (members rooms (room e)).

(** *** [initializeSocket] *)
Definition initializeSocket : M () := λ w, (set_io ∅ w, inr ()).

Inductive ClientEvent :=
  | Connection
  | JoinUserRoom (userId : string)
  | JoinContentRoom (contentId : string)
  | LeaveContentRoom (contentId : string)
  | Disconnect.

(** The listeners registered on a socket; a new socket sits in the room
    named by its own id, a closed one leaves every room. *)
Definition on_event (sid : string) (e : ClientEvent) (rooms : gmap string (gset string))
    : gmap string (gset string) :=
  match e with
  | Connection => join sid sid rooms
  | JoinUserRoom userId => if Js.truthy userId then join sid userId rooms else rooms
  | JoinContentRoom contentId =>
      if Js.truthy contentId then join sid contentId rooms else rooms
  | LeaveContentRoom contentId =>
      if Js.truthy contentId then leave sid contentId rooms else rooms
  | Disconnect => leave_all sid rooms
  end.

Definition handle (sid : string) (e : ClientEvent) : M () := λ w,
  match io w with
  | Some rooms => (set_io (on_event sid e rooms) w, inr ())
  | None => (w, inr ())
  end.

(** *** [getIO] *)
Definition getIO : M (gmap string (gset string)) := λ w,
  match io w with
  | Some rooms => (w, inr rooms)
  | None => (w, inl SocketNotInitialized)
  end.

(** [io.to(room).emit(eventName, payload)] *)
Definition emit (f : Faults) (r ev : string) (p : Payload) : M () := λ w,
  if f SocketEmit then (w, inl EmitFailed)
  else
    let e := {| room := r; event := ev; payload := p |} in
    ({| db := db w; io := io w; sent := sent w ++ [e];
        delivered := delivered w ++ packets (default ∅ (io w)) e;
        console := console w |}, inr ()).

Definition follow_findMany (f : Faults) (where_ : Follow → Prop)
    `{∀ x, Decision (where_ x)} : M (list Follow) := λ w,
  if f FollowFindMany then (w, inl (StoreError FollowFindMany))
  else (w, inr (filter where_ (follows (db w)))).

Definition console_error (ev authorId : string) (e : Error) : M () := λ w,
  ({| db := db w; io := io w; sent := sent w; delivered := delivered w;
      console := console w ++ [{| log_event := ev; log_author := authorId; log_error := e |}] |},
   inr ()).

(** *** [emitToFollowers] *)
Definition emitToFollowers (f : Faults) (authorId eventName : string) (p : Payload)
    : M () :=
  try_catch
    (followers ← follow_findMany f (λ fo, followingId fo = authorId);
     _ ← getIO;
     _ ← for_each (λ fo, emit f (followerId fo) eventName p) followers;
     emit f authorId eventName p)
    (console_error eventName authorId).

End Socket.

(** ** The notification service *)

Module Notify.

Record NotificationData := {
  nd_recipientId : string;
  nd_senderId : string;
  nd_type : NotificationType;
  nd_snippetId : option string;
  nd_docId : option string;
  nd_bugId : option string;
  nd_commentId : option string
}.

(** The row [prisma.notification.create] writes: [nid] and [now] are the
    column defaults the database supplies, [read] defaults to false. *)
Definition new_row (nid : string) (now : Z) (data : NotificationData) : Notification :=
  {| n_id := nid; n_type := nd_type data;
     recipientId := nd_recipientId data; senderId := nd_senderId data;
     read := false; n_createdAt := now;
     snippetId := nd_snippetId data; docId := nd_docId data;
     bugId := nd_bugId data; commentId := nd_commentId data |}.

Definition set_notifications (ns : list Notification) (d : Db) : Db :=
  {| follows := follows d; snippets := snippets d; docs := docs d; bugs := bugs d;
     notifications := ns |}.

Definition notification_create (f : Faults) (nid : string) (now : Z)
    (data : NotificationData) : M Notification := λ w,
  if f NotificationCreate then (w, inl (StoreError NotificationCreate))
  else
    let n := new_row nid now data in
    (set_db (set_notifications (notifications (db w) ++ [n]) (db w)) w, inr n).

(** *** [createNotification] *)
Definition createNotification (f : Faults) (nid : string) (now : Z)
    (data : NotificationData) : M () :=
  if decide (nd_recipientId data = nd_senderId data) then mret ()
  else
    notification ← notification_create f nid now data;
    _ ← Socket.getIO;
    Socket.emit f (nd_recipientId data) "new_notification" (NotificationPayload notification).

Definition mark_read (n : Notification) : Notification :=
  {| n_id := n_id n; n_type := n_type n;
     recipientId := recipientId n; senderId := senderId n;
     read := true; n_createdAt := n_createdAt n;
     snippetId := snippetId n; docId := docId n;
     bugId := bugId n; commentId := commentId n |}.

(** [updateMany({ where, data: { read: true } })] *)
Definition notification_updateMany (f : Faults) (where_ : Notification → Prop)
    `{∀ x, Decision (where_ x)} : M () := λ w,
  if f NotificationUpdateMany then (w, inl (StoreError NotificationUpdateMany))
  else
    let ns := (λ n, if decide (where_ n) then mark_read n else n) <$> notifications (db w) in
    (set_db (set_notifications ns (db w)) w, inr ()).

(** The [where] object: always the recipient, the id list only when it is
    given and not empty. *)
Definition read_filter (userId : string) (notificationIds : option (list string))
    (n : Notification) : Prop :=
  recipientId n = userId ∧
  match notificationIds with
  | Some ids => if decide (0 < length ids)%nat then n_id n ∈ ids else True
  | None => True
  end.

Global Instance read_filter_dec userId ids n : Decision (read_filter userId ids n).
Proof. unfold read_filter. destruct ids as [ids|]; [case_decide|]; apply _. Defined.

(** *** [markNotificationsAsRead] *)
Definition markNotificationsAsRead (f : Faults) (userId : string)
    (notificationIds : option (list string)) : M () :=
  notification_updateMany f (read_filter userId notificationIds).

(** *** [getUnreadNotificationCount] *)
Definition getUnreadNotificationCount (userId : string) (d : Db) : nat :=
  length (filter (λ n, recipientId n = userId ∧ read n = false) (notifications d)).

End Notify.

(** ** The bug controller *)

Module Bugs.

(** The request body before validation; [None] is a missing field. *)
Record BugBody := {
  b_title : option string;
  b_description : option string;
  b_content : option string;
  b_severity : option string;
  b_tags : option (list string);
  b_media : option (list string)
}.

Record ValidBug := {
  v_title : string;
  v_description : string;
  v_content : string;
  v_severity : BugSeverity;
  v_tags : list string;
  v_media : list string
}.

Definition parse_severity (s : option string) : option BugSeverity :=
  match s with
  | None => Some MEDIUM
  | Some s =>
      if decide (s = "LOW") then Some LOW
      else if decide (s = "MEDIUM") then Some MEDIUM
      else if decide (s = "HIGH") then Some HIGH
      else if decide (s = "CRITICAL") then Some CRITICAL
      else None
  end.

Definition parse_status (s : option string) : option BugStatus :=
  match s with
  | None => None
  | Some s =>
      if decide (s = "OPEN") then Some OPEN
      else if decide (s = "IN_PROGRESS") then Some IN_PROGRESS
      else if decide (s = "RESOLVED") then Some RESOLVED
      else if decide (s = "CLOSED") then Some CLOSED
      else None
  end.

(** [z.string().min(lo).max(hi)]: bounds on [s.length]. *)
Definition sized (lo hi : nat) (s : string) : bool :=
  bool_decide (lo ≤ Js.utf16_length s ≤ hi)%nat.

(** [bugSchema.parse] *)
Definition bugSchema (body : BugBody) : option ValidBug :=
  t ← b_title body; d ← b_description body; c ← b_content body;
  sev ← parse_severity (b_severity body);
  if sized 1 100 t && sized 1 500 d && bool_decide (1 ≤ Js.utf16_length c)%nat
  then Some {| v_title := t; v_description := d; v_content := c; v_severity := sev;
               v_tags := default [] (b_tags body); v_media := default [] (b_media body) |}
  else None.

Inductive Reply :=
  | Created (b : Bug)           (* 201 *)
  | Updated (b : Bug)           (* 200 *)
  | NotFound                    (* 404 *)
  | Gone                        (* 410 *)
  | Forbidden                   (* 403 *)
  | Failed (e : Error).         (* next(error) *)

(** [asyncHandler]: a rejection of the handler is passed to [next]. *)
Definition asyncHandler (h : M Reply) : World → World * Reply := λ w,
  match h w with
  | (w', inr r) => (w', r)
  | (w', inl e) => (w', Failed e)
  end.

Definition set_bugs (bs : list Bug) (d : Db) : Db :=
  {| follows := follows d; snippets := snippets d; docs := docs d; bugs := bs;
     notifications := notifications d |}.

Definition bug_create (f : Faults) (b : Bug) : M Bug := λ w,
  if f BugCreate then (w, inl (StoreError BugCreate))
  else (set_db (set_bugs (bugs (db w) ++ [b]) (db w)) w, inr b).

Definition bug_findUnique (f : Faults) (bugId : string) : M (option Bug) := λ w,
  if f BugFindUnique then (w, inl (StoreError BugFindUnique))
  else (w, inr (head (filter (λ b, id (bug_base b) = bugId) (bugs (db w))))).

Definition with_status (s : BugStatus) (b : Bug) : Bug :=
  {| bug_base := bug_base b; bug_description := bug_description b;
     bug_content := bug_content b; bug_severity := bug_severity b;
     bug_status := s; bug_media := bug_media b; bug_expiresAt := bug_expiresAt b |}.

(** [prisma.bug.update({ where: { id }, data: { status } })] rejects when
    no row has the id. *)
Definition bug_update (f : Faults) (bugId : string) (s : BugStatus) : M Bug := λ w,
  if f BugUpdate then (w, inl (StoreError BugUpdate))
  else
    match head (filter (λ b, id (bug_base b) = bugId) (bugs (db w))) with
    | None => (w, inl (StoreError BugUpdate))
    | Some b =>
        let bs := (λ b', if decide (id (bug_base b') = bugId) then with_status s b' else b')
                    <$> bugs (db w) in
        (set_db (set_bugs bs (db w)) w, inr (with_status s b))
    end.

(** *** [createBug]: [nid] is the id the database gives the row, [now]
    the clock, [tz] the time zone of the host; [expiresAt] is the clock
    with its local hour moved on by 24. *)
Definition createBug (f : Faults) (tz : Js.Zone) (nid : string) (now : Z)
    (userId : string) (body : BugBody) : World → World * Reply :=
  asyncHandler
    (match bugSchema body with
     | None => mthrow ValidationError
     | Some v =>
         bug ← bug_create f
           {| bug_base := {| id := nid; title := v_title v; authorId := userId;
                             createdAt := now; tags := v_tags v;
                             likes := []; bookmarks := []; comments := 0 |};
              bug_description := v_description v; bug_content := v_content v;
              bug_severity := v_severity v; bug_status := OPEN;
              bug_media := v_media v;
              bug_expiresAt := Js.setHours tz now (Js.getHours tz now + 24) |};
         _ ← detached (Socket.emitToFollowers f userId "new-bug" (BugPayload bug));
         mret (Created bug)
     end).

(** *** [updateBugStatus] *)
Definition updateBugStatus (f : Faults) (nid : string) (now : Z) (currentUserId : string)
    (bugId : string) (status : option string) : World → World * Reply :=
  asyncHandler
    (match parse_status status with
     | None => mthrow ValidationError
     | Some status =>
         found ← bug_findUnique f bugId;
         match found with
         | None => mret NotFound
         | Some b =>
             if decide (bug_expiresAt b < now) then mret Gone
             else if decide (authorId (bug_base b) ≠ currentUserId) then mret Forbidden
             else
               updatedBug ← bug_update f bugId status;
               _ ← (if decide (authorId (bug_base b) ≠ currentUserId)
                    then Notify.createNotification f nid now
                           {| Notify.nd_recipientId := authorId (bug_base b);
                              Notify.nd_senderId := currentUserId;
                              Notify.nd_type := BUG_STATUS_UPDATE;
                              Notify.nd_snippetId := None; Notify.nd_docId := None;
                              Notify.nd_bugId := Some (id (bug_base b));
                              Notify.nd_commentId := None |}
                    else mret ());
               mret (Updated updatedBug)
         end
     end).

End Bugs.

(** ** Vocabulary of the stated properties *)

Module Spec.
Import Feed.

(** [c] is the least integer not below [a * limit / 10]. *)
Definition ceil_tenths (a limit c : Z) : Prop := 10 * (c - 1) < a * limit ≤ 10 * c.

Definition kind_of (r : Row) : Kind :=
  match r with SnippetRow _ => snippet | DocRow _ => doc | BugRow _ => bug end.

Definition tagged (i : FeedItem) : Prop := fi_type i = kind_of (fi_row i).

(** [a] may stand before [b] in a newest-first list. *)
Definition not_older (a b : FeedItem) : Prop := item_createdAt b ≤ item_createdAt a.

Definition dated (t : Z) (i : FeedItem) : Prop := item_createdAt i = t.

Global Instance dated_dec t i : Decision (dated t i).
Proof. unfold dated. apply _. Defined.

Definition snippet_items (db : Db) (userId : string) (limit : Z) : list FeedItem :=
  personal_item userId snippet ∘ SnippetRow <$> snippet_candidates db userId limit.
Definition doc_items (db : Db) (userId : string) (limit : Z) : list FeedItem :=
  personal_item userId doc ∘ DocRow <$> doc_candidates db userId limit.
Definition bug_items (db : Db) (now : Z) (userId : string) (limit : Z) : list FeedItem :=
  personal_item userId bug ∘ BugRow <$> bug_candidates db now userId limit.

(** The personalized answer of [getFeed]: the page cut out of the merged
    list, its length as total. *)
Definition personalized (db : Db) (now : Z) (userId : string) (q : Query) : Response :=
  let page := Js.or_default (q_page q) 1 in
  let limit := Js.or_default (q_limit q) 10 in
  let skip := (page - 1) * limit in
  let m := merged db now userId limit in
  Json {| data := Js.slice skip (skip + limit) m;
          total := Z.of_nat (length m);
          page := page;
          hasMore := bool_decide (skip + limit < Z.of_nat (length m)) |}.

(** The public answer: the newest public snippets of any author. *)
Definition fallback (db : Db) (limit : Z) : Response :=
  let rows := public_snippets db limit 0 in
  Json {| data := public_item <$> rows;
          total := Z.of_nat (length rows);
          page := 1;
          hasMore := bool_decide (Z.of_nat (length rows) = limit) |}.

Definition follows_nobody (db : Db) (userId : string) : Prop :=
  ∀ f, f ∈ follows db → followerId f ≠ userId.

Definition has_no_content (db : Db) (userId : string) : Prop :=
  (∀ s, s ∈ snippets db → authorId (snippet_base s) ≠ userId) ∧
  (∀ d, d ∈ docs db → authorId (doc_base d) ≠ userId) ∧
  (∀ b, b ∈ bugs db → authorId (bug_base b) ≠ userId).

Definition default_query : Query := {| q_page := None; q_limit := None |}.

(** The follow edge "[c] follows [a]". *)
Definition edge (c a : string) : Follow := {| followerId := c; followingId := a |}.

(** The emits of one event on a list of rooms. *)
Definition emits_to (rs : list string) (ev : string) (p : Payload) : list Emit :=
  (λ r, {| room := r; event := ev; payload := p |}) <$> rs.

(** The process after a run of emits. *)
Definition published (es : list Emit) (w : World) : World :=
  {| db := db w; io := io w; sent := sent w ++ es;
     delivered := delivered w ++ (es ≫= Socket.packets (default ∅ (io w)));
     console := console w |}.

Definition followers_of (d : Db) (a : string) : list string :=
  followerId <$> filter (λ fo, followingId fo = a) (follows d).

(** What stops a fan-out, if anything: the follower lookup, a socket
    server that was never started, or the emit. *)
Definition fanout_error (f : Faults) (w : World) : option Error :=
  if f FollowFindMany then Some (StoreError FollowFindMany)
  else if io w is None then Some SocketNotInitialized
  else if f SocketEmit then Some EmitFailed
  else None.

(** What stops a notification after its guard. *)
Definition notify_error (f : Faults) (w : World) : option Error :=
  if f NotificationCreate then Some (StoreError NotificationCreate)
  else if io w is None then Some SocketNotInitialized
  else if f SocketEmit then Some EmitFailed
  else None.

(** The process after one [console.error] line. *)
Definition logged (ev a : string) (e : Error) (w : World) : World :=
  {| db := db w; io := io w; sent := sent w; delivered := delivered w;
     console := console w ++ [{| log_event := ev; log_author := a; log_error := e |}] |}.

(** The wall clock of the host one day on: the instant at which it
    shows, a calendar day later, the time of day it shows at [t]. *)
Definition same_time_next_day (tz : Js.Zone) (t : Z) : Z :=
  Js.UTC tz (Js.LocalTime tz t + 86400000).

(** The bug row [createBug] writes for a validated body. *)
Definition new_bug (tz : Js.Zone) (nid : string) (now : Z) (userId : string)
    (v : Bugs.ValidBug) : Bug :=
  {| bug_base := {| id := nid; title := Bugs.v_title v; authorId := userId;
                    createdAt := now; tags := Bugs.v_tags v;
                    likes := []; bookmarks := []; comments := 0 |};
     bug_description := Bugs.v_description v; bug_content := Bugs.v_content v;
     bug_severity := Bugs.v_severity v; bug_status := OPEN;
     bug_media := Bugs.v_media v; bug_expiresAt := same_time_next_day tz now |}.

(** [n'] is [n] marked as read: its [read] column is set and every other
    column is as it was. *)
Definition read_version (n n' : Notification) : Prop :=
  read n' = true ∧
  n_id n' = n_id n ∧ n_type n' = n_type n ∧
  recipientId n' = recipientId n ∧ senderId n' = senderId n ∧
  n_createdAt n' = n_createdAt n ∧
  snippetId n' = snippetId n ∧ docId n' = docId n ∧
  bugId n' = bugId n ∧ commentId n' = commentId n.





End Spec.

(** ** Sample data *)

Module Sample.

Definition content (i author : string) (t : Z) : Content :=
  {| id := i; title := i; authorId := author; createdAt := t; tags := [];
     likes := []; bookmarks := []; comments := 0 |}.

Definition a_snippet (i author : string) (t : Z) : Snippet :=
  {| snippet_base := content i author t; snippet_isPublic := true |}.

Definition a_doc (i author : string) (t : Z) : Doc :=
  {| doc_base := content i author t; doc_isPublic := true |}.

Definition a_bug (i author : string) (t expires : Z) : Bug :=
  {| bug_base := content i author t; bug_description := "d"; bug_content := "c";
     bug_severity := MEDIUM; bug_status := OPEN; bug_media := [];
     bug_expiresAt := expires |}.

Definition ann_follows_bob : Follow := {| followerId := "ann"; followingId := "bob" |}.

(** Bob's snippet and bug carry the same timestamp. *)
Definition tie_db : Db :=
  {| follows := [ann_follows_bob];
     snippets := [a_snippet "s1" "bob" 5];
     docs := [];
     bugs := [a_bug "b1" "bob" 5 100];
     notifications := [] |}.

(** One item of each kind, the bug newest. *)
Definition three_db : Db :=
  {| follows := [ann_follows_bob];
     snippets := [a_snippet "s1" "bob" 1];
     docs := [a_doc "d1" "bob" 2];
     bugs := [a_bug "b1" "bob" 3 100];
     notifications := [] |}.

(** A host that leaves summer time at the instant 3 600 000: UTC+2 before,
    UTC+1 from then on.  The wall-clock hour that the change repeats is
    read with the earlier offset. *)
Definition autumn : Js.Zone :=
  {| Js.offset_at := λ t, if decide (t < 3600000) then 7200000 else 3600000;
     Js.offset_of_local := λ wall,
       if decide (wall < 3600000 + 7200000) then 7200000 else 3600000 |}.

End Sample.

Module SampleWorld.

(** Ann's socket [k1] sits in her room, Bob's socket [k2] in his. *)
Definition rooms : gmap string (gset string) :=
  Socket.on_event "k2" (Socket.JoinUserRoom "bob")
    (Socket.on_event "k1" (Socket.JoinUserRoom "ann") ∅).

Definition world : World :=
  {| db := Sample.three_db; io := Some rooms; sent := []; delivered := []; console := [] |}.

Definition bob_likes_ann : Notify.NotificationData :=
  {| Notify.nd_recipientId := "ann"; Notify.nd_senderId := "bob"; Notify.nd_type := LIKE;
     Notify.nd_snippetId := Some "s1"; Notify.nd_docId := None; Notify.nd_bugId := None;
     Notify.nd_commentId := None |}.

Definition ann_likes_own : Notify.NotificationData :=
  {| Notify.nd_recipientId := "ann"; Notify.nd_senderId := "ann"; Notify.nd_type := LIKE;
     Notify.nd_snippetId := Some "s1"; Notify.nd_docId := None; Notify.nd_bugId := None;
     Notify.nd_commentId := None |}.

(** The store refuses to write notification rows. *)
Definition create_fails : Faults := λ op, bool_decide (op = NotificationCreate).

(** The follower lookup is rejected. *)
Definition lookup_fails : Faults := λ op, bool_decide (op = FollowFindMany).

Definition bug_body : Bugs.BugBody :=
  {| Bugs.b_title := Some "crash"; Bugs.b_description := Some "it crashes";
     Bugs.b_content := Some "steps"; Bugs.b_severity := None;
     Bugs.b_tags := None; Bugs.b_media := None |}.

Definition note (i recipient : string) : Notification :=
  {| n_id := i; n_type := LIKE; recipientId := recipient; senderId := "zoe";
     read := false; n_createdAt := 0; snippetId := None; docId := None;
     bugId := None; commentId := None |}.

(** Two notifications for Ann, one for Bob, all unread. *)
Definition inbox : World :=
  {| db := {| follows := []; snippets := []; docs := []; bugs := [];
              notifications := [note "n1" "ann"; note "n2" "bob"; note "n3" "ann"] |};
     io := Some ∅; sent := []; delivered := []; console := [] |}.

End SampleWorld.

(** ** The rest of the feed controller, and the hourly sweep *)

Module PublicFeed.
Import Feed.

(** [getPublicFeed]: the same query as the fallback of [getFeed], on any
    page.  Prisma rejects a negative [skip], which lands in the [catch]. *)
Definition getPublicFeed (f : Faults) (db : Db) (q : Query) : Response :=
  let page := Js.or_default (q_page q) 1 in
  let limit := Js.or_default (q_limit q) 10 in
  let skip := (page - 1) * limit in
  if f SnippetFindMany then InternalServerError
  else if decide (skip < 0) then InternalServerError
  else
    let snippets := public_snippets db limit skip in
    let feedItems := public_item <$> snippets in
    Json {| data := feedItems;
            total := Z.of_nat (length feedItems);
            page := page;
            hasMore := bool_decide (Z.of_nat (length snippets) = limit) |}.

(** The public snippets of the store, newest first: what the pages of the
    public feed are cut from. *)
Definition timeline (db : Db) : list Snippet :=
  Prisma.newest_first (λ s, createdAt (snippet_base s))
    (filter (λ s, snippet_isPublic s = true) (snippets db)).

Definition page_query (page limit : Z) : Query :=
  {| q_page := Some page; q_limit := Some limit |}.


End PublicFeed.

Module Cron.

(** What the job writes to the console. *)
Inductive Line := ExpiredBugsCleanedUp | ErrorCleaningUp.

(** [o] names one of [ids]. *)
Definition refers (ids : list string) (o : option string) : bool :=
  match o with
  | Some x => bool_decide (x ∈ ids)
  | None => false
  end.

(** One round of [ON DELETE CASCADE] on the comments: the comments of a
    deleted bug ([comments_bugId_fkey]) and the replies to a comment
    deleted so far ([comments_parentId_fkey]). *)
Definition cascade_step (cs : list Comment) (gone_bugs gone : list string) : list string :=
  c_id <$> filter (λ c, refers gone_bugs (c_bugId c) || refers gone (c_parentId c)) cs.

Fixpoint cascade (rounds : nat) (cs : list Comment) (gone_bugs : list string)
    : list string :=
  match rounds with
  | O => []
  | S k => cascade_step cs gone_bugs (cascade k cs gone_bugs)
  end.

(** The ids of the comments that go with the bugs [gone_bugs]; a thread is
    no deeper than the table is long. *)
Definition deleted_comments (cs : list Comment) (gone_bugs : list string) : list string :=
  cascade (length cs) cs gone_bugs.

(** The job scheduled at every full hour:
    [prisma.bug.deleteMany({ where: { expiresAt: { lt: new Date() } } })],
    with its own [try]/[catch].  [fails] tells whether the store rejects
    the call, [cs] is the comments table.  The database deletes with each
    bug the rows that refer to it: here the notifications about the bug
    ([notifications_bugId_fkey]) and those about a comment deleted with it
    ([notifications_commentId_fkey]).  The likes, bookmarks and the comment
    count of a bug are part of its row in this development and go with
    it. *)
Definition cleanup (fails : bool) (now : Z) (cs : list Comment) (d : Db) : Db * Line :=
  if fails then (d, ErrorCleaningUp)
  else
    let gone_bugs := (λ b, id (bug_base b)) <$> filter (λ b, bug_expiresAt b < now) (bugs d) in
    let gone_comments := deleted_comments cs gone_bugs in
    ({| follows := follows d; snippets := snippets d; docs := docs d;
        bugs := filter (λ b, ¬ bug_expiresAt b < now) (bugs d);
        notifications :=
          filter (λ n, ¬ (refers gone_bugs (bugId n) || refers gone_comments (commentId n)))
                 (notifications d) |},
     ExpiredBugsCleanedUp).

End Cron.

(** ** The rest of the notification service *)

Module Inbox.

(** Which of the two store calls of [getNotifications] rejects, if any. *)
Record StoreFaults := { findMany_fails : bool; count_fails : bool }.

Definition healthy : StoreFaults := {| findMany_fails := false; count_fails := false |}.

Inductive Rejection := FindManyRejected | CountRejected.

(** The object [getNotifications] resolves to.  The rows stand for the
    notification records; the sender and content summaries joined to them
    for display are not part of the model. *)
Record Listing := {
  l_notifications : list Notification;
  l_total : nat;
  l_page : Z;
  l_limit : Z
}.

(** [getNotifications(userId, page, limit)]; Prisma rejects a negative
    [skip]. *)
Definition getNotifications (sf : StoreFaults) (userId : string) (page limit : Z)
    (d : Db) : Rejection + Listing :=
  let skip := (page - 1) * limit in
  if findMany_fails sf then inl FindManyRejected
  else if decide (skip < 0) then inl FindManyRejected
  else
    let rows :=
      Prisma.findMany n_createdAt (λ n, recipientId n = userId) limit skip
        (notifications d) in
    if count_fails sf then inl CountRejected
    else inr {| l_notifications := rows;
                l_total := length (filter (λ n, recipientId n = userId) (notifications d));
                l_page := page;
                l_limit := limit |}.

End Inbox.

(** ** The response formatter *)

Module Formatter.

(** A row as a listing query returns it: the Like and Bookmark rows joined
    to it, as the user ids they carry, are there only when the query
    included them; [_count] always is. *)
Record Item := {
  i_content : Content;
  i_likes : option (list string);
  i_bookmarks : option (list string);
  i_count_likes : nat;
  i_count_comments : nat;
  i_count_bookmarks : nat
}.

(** The formatted row: a flag is [None] where JavaScript leaves
    [undefined]; the joined rows themselves are overwritten with
    [undefined] and so are not carried over. *)
Record Formatted := {
  o_content : Content;
  o_isLiked : option bool;
  o_isBookmarked : option bool;
  o_likesCount : nat;
  o_commentsCount : nat;
  o_bookmarksCount : nat
}.

(** [userId ? rows?.some(r => r.userId === userId) : false] *)
Definition flag (userId : option string) (rows : option (list string)) : option bool :=
  match userId with
  | Some u =>
      if Js.truthy u then (λ l, bool_decide (Exists (λ r, r = u) l)) <$> rows
      else Some false
  | None => Some false
  end.

(** [formatContentWithInteractions(content, userId?)] *)
Definition formatContentWithInteractions (content : list Item) (userId : option string)
    : list Formatted :=
  (λ item, {| o_content := i_content item;
              o_isLiked := flag userId (i_likes item);
              o_isBookmarked := flag userId (i_bookmarks item);
              o_likesCount := i_count_likes item;
              o_commentsCount := i_count_comments item;
              o_bookmarksCount := i_count_bookmarks item |}) <$> content.

Definition sample : Item :=
  {| i_content := Sample.content "s1" "bob" 1; i_likes := Some ["ann"; "zoe"];
     i_bookmarks := None; i_count_likes := 2; i_count_comments := 0;
     i_count_bookmarks := 1 |}.

End Formatter.
(** * Properties *)

(** ** Dates and string lengths *)

Section JsFacts.

(** Moving the local hour on by 24 moves the wall clock on by one day. *)
Lemma setHours_next_day (tz : Js.Zone) (t : Z) :
  Js.setHours tz t (Js.getHours tz t + 24) = Spec.same_time_next_day tz t.
Proof.
  unfold Js.setHours, Js.getHours, Spec.same_time_next_day, Js.msPerDay, Js.msPerHour.
  f_equal. generalize (Js.LocalTime tz t). intros lt.
  pose proof (Z.div_mod lt 86400000 ltac:(lia)).
  pose proof (Z.mod_pos_bound lt 86400000 ltac:(lia)).
  pose proof (Z.div_mod lt 3600000 ltac:(lia)).
  pose proof (Z.mod_pos_bound lt 3600000 ltac:(lia)).
  pose proof (Z.div_mod (lt `div` 3600000) 24 ltac:(lia)).
  pose proof (Z.mod_pos_bound (lt `div` 3600000) 24 ltac:(lia)).
  assert ((lt `div` 3600000) `div` 24 = lt `div` 86400000) as E.
  { rewrite Z.div_div by lia. done. }
  lia.
Qed.

(** Where the offset never changes, that is 86 400 000 ms later. *)
Lemma same_time_next_day_fixed (offset t : Z) :
  Spec.same_time_next_day (Js.fixed_zone offset) t = t + 86400000.
Proof. unfold Spec.same_time_next_day, Js.UTC, Js.LocalTime. cbn. lia. Qed.

(** A string of ASCII characters has one UTF-16 unit per byte. *)
Lemma utf16_length_ascii (s : string) :
  (∀ b, b ∈ String.list_ascii_of_string s → (Ascii.nat_of_ascii b < 128)%nat) →
  Js.utf16_length s = String.length s.
Proof.
  induction s as [|b s IH]; [done|].
  cbn [Js.utf16_length String.length String.list_ascii_of_string].
  intros Hb. rewrite IH by (intros b' Hb'; apply Hb; by right).
  unfold Js.utf16_units. rewrite decide_True; [done|]. apply Hb. left.
Qed.
End JsFacts.

(** ** Doubles: the ceiling of a rounded product *)

Section Rounding.

Lemma ceil_unique (R D T : Z) : 0 < D → (T - 1) * D < R ≤ T * D → - ((- R) / D) = T.
Proof.
intros HD [Hlo Hhi].
assert ((- R) / D = - T); [|lia].
symmetry. apply (Z.div_unique_pos (- R) D (- T) (T * D - R)); lia.
Qed.

(** The grid [X = 2 ^ s] on which [round53_pos] lands, and the two
  neighbours it chooses between. *)
Lemma round53_pos_grid (p : Z) :
0 < p →
∃ s X q r, X = 2 ^ s ∧ 0 ≤ s ∧ 0 < X ∧ p = q * X + r ∧ 0 ≤ r < X ∧ p < X * 2 ^ 53 ∧
  (X = 1 ∨ X * 2 ^ 52 ≤ p) ∧
  (Js.round53_pos p = q * X ∧ 2 * r ≤ X ∨ Js.round53_pos p = (q + 1) * X ∧ X ≤ 2 * r).
Proof.
intros Hp. unfold Js.round53_pos.
set (s := Z.max 0 (Z.log2 p - 52)).
assert (Hs : 0 ≤ s) by lia.
assert (HX : 0 < 2 ^ s) by (apply Z.pow_pos_nonneg; lia).
exists s, (2 ^ s), (p / 2 ^ s), (p `mod` 2 ^ s).
pose proof (Z.div_mod p (2 ^ s) ltac:(lia)) as Hdm.
pose proof (Z.mod_pos_bound p (2 ^ s) HX) as Hr.
pose proof (Z.log2_spec p Hp) as [Hl1 Hl2].
assert (Hlog : 0 ≤ Z.log2 p) by apply Z.log2_nonneg.
repeat split; try lia.
- destruct (decide (Z.log2 p - 52 ≤ 0)) as [Hle|Hgt].
  + replace s with 0 by lia. rewrite Z.pow_0_r, Z.mul_1_l.
    eapply Z.lt_le_trans; [apply Hl2|]. apply Z.pow_le_mono_r; lia.
  + replace (2 ^ s * 2 ^ 53) with (2 ^ Z.succ (Z.log2 p)); [lia|].
    rewrite <- Z.pow_add_r by lia. f_equal. lia.
- destruct (decide (Z.log2 p - 52 ≤ 0)) as [Hle|Hgt].
  + left. replace s with 0 by lia. reflexivity.
  + right. replace (2 ^ s * 2 ^ 52) with (2 ^ Z.log2 p); [lia|].
    rewrite <- Z.pow_add_r by lia. f_equal. lia.
- repeat case_decide; try destruct (Z.odd _); lia.
Qed.

Lemma round53_of_pos (p : Z) : 0 < p → Js.round53 p = Js.round53_pos p.
Proof. intros. unfold Js.round53. rewrite Z.sgn_pos, Z.abs_eq by lia. lia. Qed.

Lemma grid_divides (s E X : Z) : X = 2 ^ s → 0 ≤ s ≤ E → ∃ K, 0 < K ∧ 2 ^ E = K * X.
Proof.
intros -> Hs. exists (2 ^ (E - s)). split; [apply Z.pow_pos_nonneg; lia|].
rewrite <- Z.pow_add_r by lia. f_equal. lia.
Qed.

Lemma grid_exponent_le (s X p E : Z) :
X = 2 ^ s → 0 ≤ s → 0 ≤ E → (X = 1 ∨ X * 2 ^ 52 ≤ p) → p < 2 ^ (E + 52) → s ≤ E.
Proof.
intros -> Hs HE Hlow Hp.
destruct (decide (s ≤ E)) as [|Hgt]; [done|exfalso].
assert (2 ^ (E + 1) ≤ 2 ^ s) by (apply Z.pow_le_mono_r; lia).
assert (0 < 2 ^ (E + 1)) by (apply Z.pow_pos_nonneg; lia).
destruct Hlow as [H1|Hlow].
- assert (2 ^ 1 ≤ 2 ^ (E + 1)) by (apply Z.pow_le_mono_r; lia). lia.
- assert (2 ^ (E + 1) * 2 ^ 52 ≤ 2 ^ s * 2 ^ 52) by nia.
  rewrite <- Z.pow_add_r in H1 by lia.
  assert (2 ^ (E + 52) < 2 ^ (E + 1 + 52)) by (apply Z.pow_lt_mono_r; lia). lia.
Qed.

(** The double nearest [0.7] lies below it ([10 * mant = 7 * 2 ^ 53 - 4]):
  the rounded product can fall short of a whole number, never pass it. *)
Lemma ceil_mul_0_7 (n T : Z) :
0 < n < 2 ^ 48 → 10 * (T - 1) < 7 * n ≤ 10 * T → Js.ceil_mul n Js.lit_0_7 = T.
Proof.
intros Hn HT. unfold Js.ceil_mul, Js.lit_0_7; cbn [Js.mant Js.expo].
set (p := n * 6305039478318694).
assert (Hp : 0 < p) by lia.
rewrite round53_of_pos by done.
destruct (round53_pos_grid p Hp) as (s & X & q & r & HX & Hs & HXpos & Hpq & Hr & Hhi & Hlow & HR).
assert (H48 : 2 ^ 48 = 281474976710656) by reflexivity.
assert (H52 : 2 ^ 52 = 4503599627370496) by reflexivity.
assert (H53 : 2 ^ 53 = 9007199254740992) by reflexivity.
assert (Hs53 : s ≤ 53).
{ apply (grid_exponent_le s X p 53); try done.
  assert (2 ^ (53 + 52) = 2 ^ 52 * 2 ^ 53) as -> by (rewrite <- Z.pow_add_r; [f_equal|..]; lia).
  lia. }
destruct (grid_divides s 53 X HX ltac:(lia)) as (K & HK & HD).
apply ceil_unique; [lia|].
assert (HXn : X < 2 * n) by (destruct Hlow; lia).
assert (H10 : 10 * p = 7 * n * 2 ^ 53 - 4 * n) by lia.
split.
- assert (2 * p - X ≤ 2 * Js.round53_pos p) by (destruct HR as [[-> ?]|[-> ?]]; lia).
  lia.
- assert (Hple : p ≤ T * 2 ^ 53) by lia.
  destruct HR as [[-> ?]|[-> ?]]; [lia|].
  rewrite HD in *. assert (q < T * K) by nia. nia.
Qed.
(** The doubles nearest [0.1] and [0.2] lie above them
  ([10 * mant = 2 ^ 56 + 4]); on a multiple of ten the excess is less than
  half a unit in the last place and rounds away. *)
Lemma ceil_mul_above (n T a E : Z) :
(a = 1 ∧ E = 56 ∨ a = 2 ∧ E = 55) →
0 < n < 2 ^ 48 → 10 * (T - 1) < a * n ≤ 10 * T →
- ((- Js.round53 (n * 7205759403792794)) / 2 ^ E) = T.
Proof.
intros Ha Hn HT.
set (p := n * 7205759403792794).
assert (Hp : 0 < p) by lia.
rewrite round53_of_pos by done.
destruct (round53_pos_grid p Hp) as (s & X & q & r & HX & Hs & HXpos & Hpq & Hr & Hhi & Hlow & HR).
assert (H48 : 2 ^ 48 = 281474976710656) by reflexivity.
assert (H52 : 2 ^ 52 = 4503599627370496) by reflexivity.
assert (H53 : 2 ^ 53 = 9007199254740992) by reflexivity.
assert (HE : 2 ^ E = 144115188075855872 / (2 * a) ∧ 55 ≤ E ≤ 56)
  by (destruct Ha as [[-> ->]|[-> ->]]; split; try reflexivity; lia).
destruct HE as [HE HE'].
assert (Hs53 : s ≤ 53).
{ apply (grid_exponent_le s X p 53); try done.
  assert (2 ^ (53 + 52) = 2 ^ 52 * 2 ^ 53) as -> by (rewrite <- Z.pow_add_r; [f_equal|..]; lia).
  lia. }
destruct (grid_divides s E X HX ltac:(lia)) as (K & HK & HD).
assert (HXn : X < 2 * n) by (destruct Hlow; lia).
assert (H10 : 10 * p = a * n * 2 ^ E + 4 * n)
  by (destruct Ha as [[-> ->]|[-> ->]]; rewrite HE; unfold p; simpl; lia).
assert (HEv : 2 ^ E = 72057594037927936 ∨ 2 ^ E = 36028797018963968)
  by (destruct Ha as [[-> ->]|[-> ->]]; rewrite HE; [left|right]; reflexivity).
apply ceil_unique; [lia|].
split.
- assert (2 * p - X ≤ 2 * Js.round53_pos p) by (destruct HR as [[-> ?]|[-> ?]]; lia).
  assert (10 * (T - 1) + 1 ≤ a * n) by lia.
  assert ((10 * (T - 1) + 1) * 2 ^ E ≤ a * n * 2 ^ E) by nia.
  lia.
- destruct (decide (a * n = 10 * T)) as [Heq|Hne].
  + assert (Hp' : 10 * p = 10 * T * 2 ^ E + 4 * n) by (rewrite H10, Heq; lia).
    assert (HTX : 2 * (p - T * 2 ^ E) < X).
    { destruct Ha as [[-> ->]|[-> ->]]; destruct HEv as [HEv|HEv]; rewrite ?HEv in *; lia. }
    assert (Hd : 0 ≤ p - T * 2 ^ E) by lia.
    rewrite HD in *.
    assert (q = T * K) by nia. subst q.
    destruct HR as [[-> ?]|[-> ?]]; lia.
  + assert (2 * Js.round53_pos p ≤ 2 * p + X) by (destruct HR as [[-> ?]|[-> ?]]; lia).
    assert (a * n ≤ 10 * T - 1) by lia.
    assert (a * n * 2 ^ E ≤ (10 * T - 1) * 2 ^ E) by nia.
    destruct HEv as [HEv|HEv]; rewrite HEv in *; lia.
Qed.

Lemma ceil_mul_0_2 (n T : Z) :
0 < n < 2 ^ 48 → 10 * (T - 1) < 2 * n ≤ 10 * T → Js.ceil_mul n Js.lit_0_2 = T.
Proof. intros. apply (ceil_mul_above n T 2 55); auto. Qed.

Lemma ceil_mul_0_1 (n T : Z) :
0 < n < 2 ^ 48 → 10 * (T - 1) < n ≤ 10 * T → Js.ceil_mul n Js.lit_0_1 = T.
Proof. intros. apply (ceil_mul_above n T 1 56); auto; lia. Qed.

End Rounding.

(** ** [Array.prototype.sort] with a newest-first comparator *)

Section Sorting.
Context {A : Type} (key : A → Z).

Local Abbreviation newest := (λ a b : A, key b - key a).
Local Abbreviation not_after := (λ a b : A, key b ≤ key a).

Lemma insert_perm (x : A) (l : list A) : Js.insert newest x l ≡ₚ x :: l.
Proof.
  induction l as [|y l IH]; simpl; [done|].
  case_decide; [|done]. rewrite IH. apply Permutation_swap.
Qed.

Lemma sort_perm (l : list A) : Js.sort newest l ≡ₚ l.
Proof.
  induction l as [|x l IH]; simpl; [done|].
  rewrite insert_perm. by f_equiv.
Qed.

Lemma sort_length (l : list A) : length (Js.sort newest l) = length l.
Proof. by rewrite sort_perm. Qed.

Lemma insert_sorted (x : A) (l : list A) :
  StronglySorted not_after l → StronglySorted not_after (Js.insert newest x l).
Proof.
  induction 1 as [|y l Hs IH Hy]; simpl.
  - repeat constructor.
  - case_decide as Hc.
    + constructor; [done|]. rewrite insert_perm. constructor; [|done].
      simpl in *; lia.
    + constructor; [by constructor|].
      constructor; [simpl in *; lia|].
      eapply Forall_impl; [exact Hy|]. intros z ?. simpl in *. lia.
Qed.

Lemma sort_sorted (l : list A) : StronglySorted not_after (Js.sort newest l).
Proof.
  induction l as [|x l IH]; simpl; [constructor|]. by apply insert_sorted.
Qed.

(** Stability: items with the same key come out in the order they went in. *)
Lemma insert_same_key (t : Z) (x : A) (l : list A) :
  filter (λ y, key y = t) (Js.insert newest x l) = filter (λ y, key y = t) (x :: l).
Proof.
  induction l as [|y l IH]; simpl; [done|].
  case_decide as Hc; [|done].
  rewrite filter_cons, IH, !filter_cons.
  repeat case_decide; try done; lia.
Qed.

Lemma sort_stable (t : Z) (l : list A) :
  filter (λ y, key y = t) (Js.sort newest l) = filter (λ y, key y = t) l.
Proof.
  induction l as [|x l IH]; simpl; [done|].
  rewrite insert_same_key, !filter_cons, IH. done.
Qed.

(** A list that is already newest-first is left as it is. *)
Lemma sort_sorted_id (l : list A) : StronglySorted not_after l → Js.sort newest l = l.
Proof.
  induction 1 as [|x l Hs IH Hx]; simpl; [done|].
  rewrite IH. destruct l as [|y l]; simpl; [done|].
  case_decide as Hc; [|done]. apply Forall_cons in Hx as [Hxy _].
  simpl in *; lia.
Qed.
End Sorting.

(** ** [slice] and the store queries *)

Section Store.
Context {A : Type}.
Implicit Types l : list A.

Lemma slice_subseteq (a b : Z) l : Js.slice a b l ⊆ l.
Proof.
  unfold Js.slice. etrans; [apply subseteq_take|apply subseteq_drop].
Qed.

(** On a page in range [slice(skip, skip + limit)] is skip-then-take. *)
Lemma slice_skip_take (skip limit : Z) l :
  0 ≤ skip → 0 ≤ limit →
  Js.slice skip (skip + limit) l = take (Z.to_nat limit) (drop (Z.to_nat skip) l).
Proof.
  intros Hs Hl. unfold Js.slice, Js.clamp_index.
  repeat case_decide; try lia.
  destruct (decide (Z.of_nat (length l) ≤ skip)) as [Hge|Hlt].
  - rewrite !drop_ge by lia. by rewrite !take_nil.
  - rewrite (Z.min_l skip) by lia.
    destruct (decide (skip + limit ≤ Z.of_nat (length l))) as [Hin|Hout].
    + rewrite Z.min_l by lia. f_equal. lia.
    + rewrite Z.min_r by lia.
      rewrite !take_ge; [done|rewrite length_drop; lia..].
Qed.

Lemma slice_beyond (skip stop : Z) l :
  Z.of_nat (length l) ≤ skip → Js.slice skip stop l = [].
Proof.
  intros Hs. unfold Js.slice, Js.clamp_index.
  destruct (decide (skip < 0)); [lia|]. rewrite (Z.min_r skip) by lia.
  rewrite drop_ge by lia. apply take_nil.
Qed.

Lemma window_subseteq (n skip : Z) l : Prisma.window n skip l ⊆ l.
Proof.
  unfold Prisma.window. case_decide.
  - etrans; [apply subseteq_take|apply subseteq_drop].
  - intros x Hx. rewrite elem_of_reverse in Hx.
    apply subseteq_take, subseteq_drop in Hx. by rewrite elem_of_reverse in Hx.
Qed.

Lemma window_length (n skip : Z) l :
  0 ≤ n → Z.of_nat (length (Prisma.window n skip l)) ≤ n.
Proof.
  intros Hn. unfold Prisma.window. case_decide; [|lia].
  rewrite length_take. lia.
Qed.

Lemma window_head (n : Z) l : 0 ≤ n → Prisma.window n 0 l = take (Z.to_nat n) l.
Proof. intros Hn. unfold Prisma.window. by rewrite decide_True by done. Qed.

Lemma window_nonempty (n : Z) l : n ≠ 0 → l ≠ [] → Prisma.window n 0 l ≠ [].
Proof.
  intros Hn Hl. unfold Prisma.window. change (Z.to_nat 0) with 0%nat. rewrite !drop_0.
  case_decide.
  - destruct l as [|x l]; [done|]. destruct (Z.to_nat n) eqn:E; [lia|done].
  - intros Hr. apply (f_equal length) in Hr.
    rewrite length_reverse, length_take, length_reverse in Hr.
    destruct l; [done|]. cbn in Hr. lia.
Qed.

Lemma sorted_take (R : A → A → Prop) (a : nat) (l : list A) :
  StronglySorted R l → StronglySorted R (take a l).
Proof. intros Hs. rewrite <- (take_drop a l) in Hs. by apply StronglySorted_app_1_l in Hs. Qed.

Lemma sorted_drop (R : A → A → Prop) (a : nat) (l : list A) :
  StronglySorted R l → StronglySorted R (drop a l).
Proof. intros Hs. rewrite <- (take_drop a l) in Hs. by apply StronglySorted_app_1_r in Hs. Qed.

Lemma sorted_window (R : A → A → Prop) (a b : nat) (l : list A) :
  StronglySorted R l → StronglySorted R (take a (drop b l)).
Proof. intros Hs. by apply sorted_take, sorted_drop. Qed.

(** A window of ordered rows is ordered, whichever way it is cut. *)
Lemma window_sorted (R : A → A → Prop) (n skip : Z) (l : list A) :
  StronglySorted R l → StronglySorted R (Prisma.window n skip l).
Proof.
  intros Hs. unfold Prisma.window. case_decide; [by apply sorted_window|].
  rewrite drop_reverse, take_reverse, reverse_involutive.
  by apply sorted_drop, sorted_take.
Qed.

Context (key : A → Z) (where_ : A → Prop) `{∀ x, Decision (where_ x)}.

Lemma findMany_where (n skip : Z) (table : list A) (x : A) :
  x ∈ Prisma.findMany key where_ n skip table → where_ x ∧ x ∈ table.
Proof.
  unfold Prisma.findMany, Prisma.newest_first. intros Hx.
  apply window_subseteq in Hx.
  rewrite sort_perm in Hx. by apply list_elem_of_filter in Hx.
Qed.

Lemma findMany_length (n skip : Z) (table : list A) :
  0 ≤ n → Z.of_nat (length (Prisma.findMany key where_ n skip table)) ≤ n.
Proof. apply window_length. Qed.

Lemma findMany_none (n skip : Z) (table : list A) :
  (∀ x, x ∈ table → ¬ where_ x) → Prisma.findMany key where_ n skip table = [].
Proof.
  intros Hno. destruct (Prisma.findMany key where_ n skip table) as [|x l] eqn:E; [done|].
  assert (Hx : x ∈ Prisma.findMany key where_ n skip table) by (rewrite E; left).
  apply findMany_where in Hx as [? ?]. naive_solver.
Qed.

(** With [skip = 0] and a [take] that is not negative, the rows returned are the head
    of the newest-first ordering of the matching rows. *)
Lemma findMany_head (n : Z) (table : list A) :
  0 ≤ n →
  Prisma.findMany key where_ n 0 table
  = take (Z.to_nat n) (Prisma.newest_first key (filter where_ table)).
Proof.
  intros Hn. unfold Prisma.findMany. by apply window_head.
Qed.

Lemma findMany_some (n : Z) (table : list A) (x : A) :
  n ≠ 0 → x ∈ table → where_ x → Prisma.findMany key where_ n 0 table ≠ [].
Proof.
  intros Hn Hx Hw. unfold Prisma.findMany.
  apply window_nonempty; [done|].
  assert (Hin : x ∈ Prisma.newest_first key (filter where_ table)).
  { unfold Prisma.newest_first. rewrite sort_perm. by apply list_elem_of_filter. }
  intros E. rewrite E in Hin. by apply elem_of_nil in Hin.
Qed.

(** Every row returned is at least as recent as every matching row left out. *)
Lemma findMany_most_recent (n : Z) (table : list A) (x y : A) :
  0 ≤ n → x ∈ Prisma.findMany key where_ n 0 table →
  y ∈ table → where_ y → y ∉ Prisma.findMany key where_ n 0 table →
  key y ≤ key x.
Proof.
  intros Hn. rewrite findMany_head by lia.
  pose proof (sort_sorted key (filter where_ table)) as Hs.
  assert (Hy : ∀ y, y ∈ table → where_ y → y ∈ Prisma.newest_first key (filter where_ table)).
  { intros z ? ?. unfold Prisma.newest_first. rewrite sort_perm. by apply list_elem_of_filter. }
  unfold Prisma.newest_first in *.
  revert Hs Hy. generalize (Js.sort (λ a b, key b - key a) (filter where_ table)).
  intros l Hs Hall Hx Hyt Hyw Hny. specialize (Hall y Hyt Hyw).
  clear table Hyt Hyw.
  revert l Hs Hall Hx Hny. induction (Z.to_nat n) as [|k IH]; intros l Hs Hall Hx Hny.
  - rewrite take_0 in Hx. by apply elem_of_nil in Hx.
  - destruct l as [|z l]; [by apply elem_of_nil in Hx|].
    apply StronglySorted_inv in Hs as [Hs Hz]. simpl in *.
    apply not_elem_of_cons in Hny as [Hyz Hny].
    apply elem_of_cons in Hall as [?|Hall]; [done|].
    apply elem_of_cons in Hx as [->|Hx].
    + rewrite Forall_forall in Hz. by apply Hz.
    + by apply (IH l).
Qed.
End Store.

(** ** The feed controller *)

Section FeedFacts.
Import Feed Spec.
Context (db : Db) (now : Z) (userId : string).

Lemma merged_perm (limit : Z) :
  merged db now userId limit ≡ₚ concatenated db now userId limit.
Proof. apply (sort_perm item_createdAt). Qed.

Lemma merged_sorted (limit : Z) :
  StronglySorted not_older (merged db now userId limit).
Proof. apply (sort_sorted item_createdAt). Qed.

Lemma merged_stable (limit t : Z) :
  filter (dated t) (merged db now userId limit)
  = filter (dated t) (concatenated db now userId limit).
Proof. apply (sort_stable item_createdAt). Qed.

Lemma concatenated_tagged (limit : Z) : Forall tagged (concatenated db now userId limit).
Proof.
  unfold concatenated. rewrite !Forall_app, !Forall_fmap.
  repeat split; by apply Forall_true.
Qed.

Lemma getFeed_personalized (q : Query) :
  ¬ (merged db now userId (Js.or_default (q_limit q) 10) = []
     ∧ Js.or_default (q_page q) 1 = 1) →
  getFeed no_faults db now userId q = personalized db now userId q.
Proof.
  intros Hne. unfold getFeed, personalized, no_faults. simpl.
  destruct (bool_decide _ && bool_decide _) eqn:E; [|done].
  apply andb_true_iff in E as [E1 E2].
  apply bool_decide_eq_true in E1, E2.
  destruct Hne. split; [by apply nil_length_inv|done].
Qed.

Lemma getFeed_fallback (q : Query) :
  merged db now userId (Js.or_default (q_limit q) 10) = [] →
  Js.or_default (q_page q) 1 = 1 →
  getFeed no_faults db now userId q = fallback db (Js.or_default (q_limit q) 10).
Proof.
  intros Hm Hp. unfold getFeed, fallback, no_faults. simpl.
  rewrite Hm, Hp. simpl. rewrite length_fmap. done.
Qed.

Lemma ceil_tenths_exists (a limit : Z) : ceil_tenths a limit ((a * limit + 9) / 10).
Proof.
  unfold ceil_tenths.
  pose proof (Z.div_mod (a * limit + 9) 10 ltac:(lia)).
  pose proof (Z.mod_pos_bound (a * limit + 9) 10 ltac:(lia)). lia.
Qed.

Lemma quotas (limit : Z) :
  0 < limit < 2 ^ 48 →
  ceil_tenths 7 limit (snippet_quota limit) ∧
  ceil_tenths 2 limit (doc_quota limit) ∧
  ceil_tenths 1 limit (bug_quota limit).
Proof.
  intros Hl. unfold snippet_quota, doc_quota, bug_quota.
  pose proof (ceil_tenths_exists 7 limit) as H7.
  pose proof (ceil_tenths_exists 2 limit) as H2.
  pose proof (ceil_tenths_exists 1 limit) as H1.
  rewrite (ceil_mul_0_7 limit _ Hl H7), (ceil_mul_0_2 limit _ Hl H2).
  rewrite (ceil_mul_0_1 limit ((1 * limit + 9) / 10) Hl); [done|].
  unfold ceil_tenths in H1. lia.
Qed.
End FeedFacts.

Section FeedClaims.
Import Feed Spec.

Lemma or_default_nonzero (parsed : option Z) (d : Z) : d ≠ 0 → Js.or_default parsed d ≠ 0.
Proof. intros Hd. unfold Js.or_default. destruct parsed; [case_decide|]; done. Qed.

(** Where the items of an answer come from. *)
Lemma items_origin (f : Faults) (db : Db) (now : Z) (userId : string) (q : Query)
    (i : FeedItem) :
  i ∈ items (getFeed f db now userId q) →
  (∃ s, i = public_item s ∧ s ∈ snippets db ∧ snippet_isPublic s = true)
  ∨ i ∈ concatenated db now userId (Js.or_default (q_limit q) 10).
Proof.
  unfold getFeed.
  destruct (f FollowFindMany); [by intros ?%elem_of_nil|].
  destruct (f SnippetFindMany || f DocFindMany || f BugFindMany); [by intros ?%elem_of_nil|].
  destruct (bool_decide _ && bool_decide _); simpl.
  - intros (s & -> & Hs)%list_elem_of_fmap. left. exists s.
    apply findMany_where in Hs as [Hp Hs]. by repeat split.
  - intros Hi%slice_subseteq. right. by rewrite <- merged_perm.
Qed.

Lemma candidates_length (db : Db) (now : Z) (userId : string) (limit : Z) :
  0 < limit < 2 ^ 48 →
  Z.of_nat (length (snippet_candidates db userId limit)) ≤ snippet_quota limit ∧
  Z.of_nat (length (doc_candidates db userId limit)) ≤ doc_quota limit ∧
  Z.of_nat (length (bug_candidates db now userId limit)) ≤ bug_quota limit.
Proof.
  intros Hl. destruct (quotas limit Hl) as (H7 & H2 & H1). unfold ceil_tenths in *.
  repeat split; apply findMany_length; lia.
Qed.

Lemma merged_length (db : Db) (now : Z) (userId : string) (limit : Z) :
  0 < limit < 2 ^ 48 →
  Z.of_nat (length (merged db now userId limit))
  ≤ snippet_quota limit + doc_quota limit + bug_quota limit.
Proof.
  intros Hl. destruct (candidates_length db now userId limit Hl) as (H7 & H2 & H1).
  rewrite merged_perm. unfold concatenated. rewrite !length_app, !length_fmap. lia.
Qed.

(** C6. For a page size [limit] (positive, below [2 ^ 48]) the quotas
    computed by [Math.ceil(limit * 0.7)], [Math.ceil(limit * 0.2)] and
    [Math.ceil(limit * 0.1)] are the exact ceilings of 0.7, 0.2 and 0.1
    times [limit], and the three candidate queries return at most that
    many snippet, doc and bug rows; for [limit = 10] the quotas are 7, 2
    and 1. *)
Theorem quota_candidates (db : Db) (now : Z) (userId : string) (limit : Z) :
  0 < limit < 2 ^ 48 →
  ceil_tenths 7 limit (snippet_quota limit) ∧
  ceil_tenths 2 limit (doc_quota limit) ∧
  ceil_tenths 1 limit (bug_quota limit) ∧
  Z.of_nat (length (snippet_candidates db userId limit)) ≤ snippet_quota limit ∧
  Z.of_nat (length (doc_candidates db userId limit)) ≤ doc_quota limit ∧
  Z.of_nat (length (bug_candidates db now userId limit)) ≤ bug_quota limit ∧
  (limit = 10 → snippet_quota limit = 7 ∧ doc_quota limit = 2 ∧ bug_quota limit = 1).
Proof.
  intros Hl. destruct (quotas limit Hl) as (H7 & H2 & H1).
  destruct (candidates_length db now userId limit Hl) as (L7 & L2 & L1).
  do 6 (split; [assumption|]). by intros ->.
Qed.

Lemma quota_candidates_witness :
  snippet_quota 10 = 7 ∧ doc_quota 10 = 2 ∧ bug_quota 10 = 1.
Proof.
  assert (H : 0 < 10 < 2 ^ 48) by (split; reflexivity).
  destruct (quota_candidates Sample.three_db 0 "ann" 10 H) as (_ & _ & _ & _ & _ & _ & Hq).
  apply Hq. reflexivity.
Defined.

(** C8. Every item of a [getFeed] answer that is tagged as a bug is a Bug
    row whose [expiresAt] lies after the clock the query read; a Bug of the
    store that has expired appears in no answer, whether or not the sweep
    has removed it. *)
Theorem feed_bugs_active (f : Faults) (db : Db) (now : Z) (userId : string) (q : Query)
    (i : FeedItem) :
  i ∈ items (getFeed f db now userId q) →
  (fi_type i = bug → ∃ b, fi_row i = BugRow b) ∧
  (∀ b, fi_row i = BugRow b → b ∈ bugs db ∧ now < bug_expiresAt b).
Proof.
  intros [(s & -> & _)|Hi]%items_origin; [split; [done|by intros b [=]]|].
  unfold concatenated in Hi.
  rewrite !elem_of_app, !list_elem_of_fmap in Hi.
  destruct Hi as [(s & -> & Hs)|[(d & -> & Hd)|(b & -> & Hb)]]; simpl.
  - split; [done|by intros b [=]].
  - split; [done|by intros b [=]].
  - split; [by exists b|]. intros b' [= <-].
    apply findMany_where in Hb as [[_ Hact] Hb]. by split.
Qed.

Lemma feed_bugs_active_witness :
  ∃ i, fi_type i = bug ∧ ∀ b, fi_row i = BugRow b → b ∈ bugs Sample.three_db ∧ 10 < bug_expiresAt b.
Proof.
  exists (personal_item "ann" bug (BugRow (Sample.a_bug "b1" "bob" 3 100))).
  split; [reflexivity|].
  apply (feed_bugs_active no_faults Sample.three_db 10 "ann" default_query _).
  vm_compute. left.
Defined.

(** C10. For a page size [limit] (positive, below [2 ^ 48]) the merged list
    holds at most the sum of the three quotas, the ceilings of 0.7, 0.2 and
    0.1 times [limit].  For [limit = 10] (given or by default) and a page
    number of at least 1, the personalized answer reports a total of at
    most 10 and [hasMore = false], and from page 2 on it carries no item. *)
Theorem personalized_feed_bounded (db : Db) (now : Z) (userId : string) :
  (∀ limit, 0 < limit < 2 ^ 48 →
     ceil_tenths 7 limit (snippet_quota limit) ∧
     ceil_tenths 2 limit (doc_quota limit) ∧
     ceil_tenths 1 limit (bug_quota limit) ∧
     Z.of_nat (length (merged db now userId limit))
     ≤ snippet_quota limit + doc_quota limit + bug_quota limit) ∧
  (∀ q, Js.or_default (q_limit q) 10 = 10 → 1 ≤ Js.or_default (q_page q) 1 →
     ¬ (merged db now userId 10 = [] ∧ Js.or_default (q_page q) 1 = 1) →
     ∃ p, getFeed no_faults db now userId q = Json p ∧
          total p = Z.of_nat (length (merged db now userId 10)) ∧
          total p ≤ 10 ∧ hasMore p = false ∧
          (2 ≤ Js.or_default (q_page q) 1 → data p = [])).
Proof.
  split.
  - intros limit Hl. destruct (quotas limit Hl) as (H7 & H2 & H1).
    do 3 (split; [assumption|]). by apply merged_length.
  - intros q Hlim Hpage Hpers.
    assert (H10 : 0 < 10 < 2 ^ 48) by (split; reflexivity).
    pose proof (merged_length db now userId 10 H10) as Hlen.
    change (snippet_quota 10 + doc_quota 10 + bug_quota 10) with 10 in Hlen.
    rewrite getFeed_personalized by (by rewrite Hlim).
    unfold personalized. rewrite Hlim. eexists. split; [reflexivity|].
    cbn [total hasMore data].
    split; [reflexivity|]. split; [exact Hlen|]. split.
    + apply bool_decide_eq_false. lia.
    + intros Hp2. apply slice_beyond. lia.
Qed.

Lemma personalized_feed_bounded_witness :
  ∃ p, getFeed no_faults Sample.three_db 10 "ann" {| q_page := Some 2; q_limit := Some 10 |} = Json p ∧
       total p = 3 ∧ hasMore p = false ∧ data p = [].
Proof.
  destruct (personalized_feed_bounded Sample.three_db 10 "ann") as [_ H].
  destruct (H {| q_page := Some 2; q_limit := Some 10 |}) as (p & Hp & Ht & _ & Hm & Hd).
  - reflexivity.
  - vm_compute. discriminate.
  - intros [_ Hpage]. vm_compute in Hpage. discriminate.
  - exists p. split; [exact Hp|]. split; [exact Ht|]. split; [exact Hm|].
    apply Hd. vm_compute. discriminate.
Defined.
End FeedClaims.

Section FeedOrder.
Import Feed Spec.

Lemma findMany_singleton {A} (key : A → Z) (where_ : A → Prop) `{∀ x, Decision (where_ x)}
    (n : Z) (x : A) :
  0 < n → where_ x → Prisma.findMany key where_ n 0 [x] = [x].
Proof.
  intros Hn Hx. rewrite findMany_head by lia.
  rewrite filter_cons_True by done. simpl.
  destruct (Z.to_nat n) eqn:E; [lia|]. simpl. by rewrite take_nil.
Qed.

Lemma sort_three {A} (key : A → Z) (a b c : A) :
  key a < key b < key c → Js.sort (λ x y, key y - key x) [a; b; c] = [c; b; a].
Proof.
  intros Hk. unfold Js.sort. cbn [foldr Js.insert].
  rewrite (decide_True (P := 0 < key c - key b)) by lia. cbn [Js.insert].
  rewrite (decide_True (P := 0 < key c - key a)) by lia. cbn [Js.insert].
  rewrite (decide_True (P := 0 < key b - key a)) by lia. done.
Qed.

(** A snippet, a doc and a bug of a followed author, the bug newest and the
    snippet oldest, come back as bug, doc, snippet. *)
Lemma three_kinds_order (viewer author : string) (fs : list Follow)
    (ns : list Notification) (S1 : Snippet) (D1 : Doc) (B1 : Bug) (now : Z) :
  {| followerId := viewer; followingId := author |} ∈ fs →
  authorId (snippet_base S1) = author → snippet_isPublic S1 = true →
  authorId (doc_base D1) = author → doc_isPublic D1 = true →
  authorId (bug_base B1) = author → now < bug_expiresAt B1 →
  createdAt (snippet_base S1) < createdAt (doc_base D1) < createdAt (bug_base B1) →
  fi_row <$> items (getFeed no_faults
                      {| follows := fs; snippets := [S1]; docs := [D1]; bugs := [B1];
                         notifications := ns |} now viewer default_query)
  = [BugRow B1; DocRow D1; SnippetRow S1].
Proof.
  intros Hf HS HSp HD HDp HB HBa Ht.
  set (db := {| follows := fs; snippets := [S1]; docs := [D1]; bugs := [B1];
                notifications := ns |}).
  assert (Hin : author ∈ followingIds db viewer).
  { unfold followingIds. apply elem_of_app. left.
    apply list_elem_of_fmap. eexists. split; [|apply list_elem_of_filter; split; [|exact Hf]]; done. }
  assert (Hm : merged db now viewer 10
               = [personal_item viewer bug (BugRow B1);
                  personal_item viewer doc (DocRow D1);
                  personal_item viewer snippet (SnippetRow S1)]).
  { unfold merged, concatenated, snippet_candidates, doc_candidates, bug_candidates.
    change (snippet_quota 10) with 7. change (doc_quota 10) with 2.
    change (bug_quota 10) with 1. simpl snippets. simpl docs. simpl bugs.
    rewrite !findMany_singleton by (try lia; split; congruence).
    rewrite !list_fmap_singleton. cbn [app].
    apply (sort_three item_createdAt). exact Ht. }
  rewrite getFeed_personalized.
  - unfold personalized. change (Js.or_default (q_limit default_query) 10) with 10.
    rewrite Hm. reflexivity.
  - change (Js.or_default (q_limit default_query) 10) with 10. rewrite Hm. by intros [? _].
Qed.

(** C1 (as amended). The merged list of a personalized [getFeed] is a
    permutation of the concatenation of the snippet, doc and bug results,
    each item tagged with its kind; it is sorted by [createdAt], newest
    first, and the sort is stable: items with equal [createdAt] keep the
    order of the concatenation, snippets before docs before bugs.  The page
    is cut out of the merged list ([skip] items dropped, [limit] taken),
    while the three queries themselves skip nothing.  A snippet, a doc and a
    bug of a followed author with increasing [createdAt] come back as
    [[B1; D1; S1]]. *)
Theorem feed_merge_order (db : Db) (now : Z) (userId : string) (q : Query) :
  let page := Js.or_default (q_page q) 1 in
  let limit := Js.or_default (q_limit q) 10 in
  let skip := (page - 1) * limit in
  let m := merged db now userId limit in
  m ≡ₚ snippet_items db userId limit ++ doc_items db userId limit
       ++ bug_items db now userId limit ∧
  Forall tagged m ∧
  StronglySorted not_older m ∧
  (∀ t, filter (dated t) m
        = filter (dated t) (snippet_items db userId limit)
          ++ filter (dated t) (doc_items db userId limit)
          ++ filter (dated t) (bug_items db now userId limit)) ∧
  (¬ (m = [] ∧ page = 1) →
     getFeed no_faults db now userId q = personalized db now userId q ∧
     items (personalized db now userId q) = Js.slice skip (skip + limit) m ∧
     (1 ≤ page → 0 < limit →
        items (personalized db now userId q)
        = take (Z.to_nat limit) (drop (Z.to_nat skip) m))) ∧
  (∀ viewer author fs ns S1 D1 B1,
     {| followerId := viewer; followingId := author |} ∈ fs →
     authorId (snippet_base S1) = author → snippet_isPublic S1 = true →
     authorId (doc_base D1) = author → doc_isPublic D1 = true →
     authorId (bug_base B1) = author → now < bug_expiresAt B1 →
     createdAt (snippet_base S1) < createdAt (doc_base D1) < createdAt (bug_base B1) →
     fi_row <$> items (getFeed no_faults
                         {| follows := fs; snippets := [S1]; docs := [D1]; bugs := [B1];
                            notifications := ns |} now viewer default_query)
     = [BugRow B1; DocRow D1; SnippetRow S1]).
Proof.
  intros page limit skip m. split; [apply merged_perm|].
  split; [unfold m; rewrite merged_perm; apply concatenated_tagged|].
  split; [apply merged_sorted|].
  split; [intros t; unfold m; rewrite merged_stable; unfold concatenated;
          by rewrite !filter_app|].
  split.
  - intros Hp. split; [by apply getFeed_personalized|]. split; [done|].
    intros Hpage Hlimit. apply slice_skip_take; subst skip; nia.
  - intros viewer author fs ns S1 D1 B1 Hf HS HSp HD HDp HB HBa Ht.
    by apply (three_kinds_order viewer author).
Qed.

Lemma feed_merge_order_witness :
  fi_row <$> items (getFeed no_faults Sample.three_db 10 "ann" default_query)
  = [BugRow (Sample.a_bug "b1" "bob" 3 100); DocRow (Sample.a_doc "d1" "bob" 2);
     SnippetRow (Sample.a_snippet "s1" "bob" 1)].
Proof.
  pose proof (feed_merge_order Sample.three_db 10 "ann" default_query) as H.
  cbv zeta in H. destruct H as (_ & _ & _ & _ & _ & H).
  apply (H "ann" "bob" [Sample.ann_follows_bob] []).
  - left.
  - reflexivity.
  - reflexivity.
  - reflexivity.
  - reflexivity.
  - reflexivity.
  - reflexivity.
  - split; reflexivity.
Defined.

(** C1 as stated fails: Bob's snippet and bug carry the same [createdAt];
    the answer lists the snippet first, in the order of the concatenation,
    not in its reverse. *)
Lemma feed_ties_not_reversed :
  fi_type <$> items (getFeed no_faults Sample.tie_db 10 "ann" default_query) = [snippet; bug]
  ∧ ¬ (∀ db now userId limit t,
         filter (dated t) (merged db now userId limit)
         = reverse (filter (dated t) (concatenated db now userId limit))).
Proof.
  split; [reflexivity|].
  intros H. specialize (H Sample.tie_db 10 "ann" 10 5).
  vm_compute in H. discriminate H.
Qed.

(** C5. When the merged list is empty and the page is 1, [getFeed] answers
    with the public feed: rows of public snippets of any author, newest
    first, without [isLiked] and [isBookmarked], with the number of rows
    as total; for a positive limit they are the first [limit] rows (or
    all, if there are fewer) of a newest-first arrangement of all public
    snippets, so no public snippet left out is newer than one shown.  A
    viewer who follows nobody and owns no content is in this case, and
    gets a non-empty answer on page 1 as soon as the store holds a public
    snippet. *)
Theorem empty_feed_fallback (db : Db) (now : Z) (userId : string) (q : Query) :
  let page := Js.or_default (q_page q) 1 in
  let limit := Js.or_default (q_limit q) 10 in
  let public := filter (λ s, snippet_isPublic s = true) (snippets db) in
  let newest := λ a b : Snippet, createdAt (snippet_base b) ≤ createdAt (snippet_base a) in
  (merged db now userId limit = [] → page = 1 →
     ∃ p rows,
       getFeed no_faults db now userId q = Json p ∧
       data p = public_item <$> rows ∧
       Feed.page p = 1 ∧ total p = Z.of_nat (length rows) ∧
       (hasMore p = true ↔ Z.of_nat (length rows) = limit) ∧
       (∀ s, s ∈ rows → s ∈ public) ∧ StronglySorted newest rows ∧
       (∀ i, i ∈ data p →
          isLiked i = None ∧ isBookmarked i = None ∧ fi_type i = snippet ∧
          ∃ s, fi_row i = SnippetRow s ∧ s ∈ snippets db ∧ snippet_isPublic s = true) ∧
       (0 < limit →
          ∃ older, rows ++ older ≡ₚ public ∧ StronglySorted newest (rows ++ older) ∧
                   length rows = Nat.min (Z.to_nat limit) (length public))) ∧
  (follows_nobody db userId → has_no_content db userId → page = 1 →
     (∃ s, s ∈ snippets db ∧ snippet_isPublic s = true) →
     merged db now userId limit = [] ∧
     items (getFeed no_faults db now userId q) ≠ []).
Proof.
  intros page limit public newest.
  assert (Hfb : merged db now userId limit = [] → page = 1 →
            getFeed no_faults db now userId q
            = Json {| data := public_item <$> public_snippets db limit 0;
                      total := Z.of_nat (length (public_snippets db limit 0));
                      Feed.page := 1;
                      hasMore := bool_decide
                                   (Z.of_nat (length (public_snippets db limit 0)) = limit) |}).
  { intros Hm Hp. unfold getFeed, no_faults. simpl.
    fold limit page. rewrite Hm, Hp. simpl. by rewrite length_fmap. }
  split.
  - intros Hm Hp. eexists _, (public_snippets db limit 0).
    split; [by apply Hfb|]. cbn [data Feed.page total hasMore].
    do 3 (split; [done|]). split; [apply bool_decide_eq_true|].
    assert (Hsub : ∀ s, s ∈ public_snippets db limit 0 → s ∈ public).
    { intros s Hs. apply window_subseteq in Hs. unfold Prisma.newest_first in Hs.
      by rewrite (sort_perm (λ s, createdAt (snippet_base s))) in Hs. }
    split; [done|]. split; [|split].
    + apply window_sorted. apply (sort_sorted (λ s, createdAt (snippet_base s))).
    + intros i (s & -> & Hs)%list_elem_of_fmap.
      apply Hsub, list_elem_of_filter in Hs as [Hs Hin].
      do 3 (split; [done|]). by exists s.
    + intros Hl. unfold public_snippets, Prisma.findMany.
      rewrite window_head by lia.
      set (ts := Prisma.newest_first (λ s, createdAt (snippet_base s)) public).
      exists (drop (Z.to_nat limit) ts). rewrite take_drop.
      split; [apply (sort_perm (λ s, createdAt (snippet_base s)))|].
      split; [apply (sort_sorted (λ s, createdAt (snippet_base s)))|].
      rewrite length_take. unfold ts, Prisma.newest_first.
      by rewrite (sort_length (λ s, createdAt (snippet_base s))).
  - intros Hf (Hs & Hd & Hb) Hpage (s & Hin & Hpub).
    assert (Hids : ∀ a, a ∈ followingIds db userId → a = userId).
    { unfold followingIds. intros a [Ha|Ha]%elem_of_app.
      - apply list_elem_of_fmap in Ha as (fo & -> & Hfo).
        apply list_elem_of_filter in Hfo as [Hfo1 Hfo2]. by destruct (Hf fo).
      - by apply list_elem_of_singleton in Ha. }
    assert (Hm : merged db now userId limit = []).
    { apply Permutation_nil_r. rewrite merged_perm. unfold concatenated.
      unfold snippet_candidates, doc_candidates, bug_candidates.
      rewrite !findMany_none; [done|..].
      - intros b Hbin [Ha _]. apply Hids in Ha. by apply (Hb b).
      - intros d Hdin [Ha _]. apply Hids in Ha. by apply (Hd d).
      - intros s0 Hsin [Ha _]. apply Hids in Ha. by apply (Hs s0). }
    split; [done|]. rewrite Hfb by done.
    simpl. intros E%fmap_nil_inv. revert E.
    apply (findMany_some _ _ limit (snippets db) s); [|done..].
    by apply or_default_nonzero.
Qed.

Lemma empty_feed_fallback_witness :
  items (getFeed no_faults Sample.three_db 10 "zoe" default_query) ≠ [].
Proof.
  pose proof (empty_feed_fallback Sample.three_db 10 "zoe" default_query) as H.
  cbv zeta in H. destruct H as (_ & H). apply H.
  - intros f Hf. apply list_elem_of_singleton in Hf. rewrite Hf. vm_compute. discriminate.
  - repeat split; intros x Hx; apply list_elem_of_singleton in Hx; rewrite Hx;
      vm_compute; discriminate.
  - reflexivity.
  - exists (Sample.a_snippet "s1" "bob" 1). split; [left|reflexivity].
Defined.
End FeedOrder.

(** ** The notification service *)

Section NotifyClaims.
Import Notify.

(** C2. A [createNotification] call whose recipient is its sender returns
    at once and leaves the process as it was: no Notification row is
    written and nothing is emitted on any channel. *)
Theorem no_self_notification (f : Faults) (nid : string) (now : Z)
    (data : NotificationData) (w : World) :
  nd_recipientId data = nd_senderId data →
  createNotification f nid now data w = (w, inr ()) ∧
  notifications (db (createNotification f nid now data w).1) = notifications (db w) ∧
  sent (createNotification f nid now data w).1 = sent w ∧
  delivered (createNotification f nid now data w).1 = delivered w.
Proof.
  intros Heq. unfold createNotification. rewrite decide_True by done. done.
Qed.

Lemma no_self_notification_witness :
  createNotification no_faults "n1" 0 SampleWorld.ann_likes_own SampleWorld.world
  = (SampleWorld.world, inr ()).
Proof.
  apply (no_self_notification no_faults "n1" 0 SampleWorld.ann_likes_own SampleWorld.world).
  reflexivity.
Defined.

Lemma read_filter_other (userId : string) (ids : option (list string)) (n : Notification) :
  recipientId n ≠ userId → ¬ read_filter userId ids n.
Proof. by intros Hne [? _]. Qed.

Lemma mark_read_version (n : Notification) : Spec.read_version n (mark_read n).
Proof. by repeat split. Qed.

(** C7. [markNotificationsAsRead(userId, ids)] rewrites the notification
    table row by row and touches nothing else.  A row of another recipient
    is left as it is, listed or not.  A row of [userId] is marked read when
    [ids] is omitted or empty, or when its id is listed: its [read] column
    is set and every other column is kept.  With a non-empty list a row
    that is not listed is left as it is. *)
Theorem read_scoping (f : Faults) (userId : string) (ids : option (list string))
    (w : World) :
  f NotificationUpdateMany = false →
  let r := markNotificationsAsRead f userId ids w in
  r.2 = inr () ∧
  follows (db r.1) = follows (db w) ∧ snippets (db r.1) = snippets (db w) ∧
  docs (db r.1) = docs (db w) ∧ bugs (db r.1) = bugs (db w) ∧
  io r.1 = io w ∧ sent r.1 = sent w ∧ delivered r.1 = delivered w ∧
  console r.1 = console w ∧
  length (notifications (db r.1)) = length (notifications (db w)) ∧
  ∀ (k : nat) (n : Notification), notifications (db w) !! k = Some n →
    ∃ n', notifications (db r.1) !! k = Some n' ∧
      (recipientId n ≠ userId → n' = n) ∧
      (recipientId n = userId → ids = None ∨ ids = Some [] → Spec.read_version n n') ∧
      (∀ l, ids = Some l → l ≠ [] →
         (recipientId n = userId → n_id n ∈ l → Spec.read_version n n') ∧
         (n_id n ∉ l → n' = n)).
Proof.
  intros Hf r. subst r. unfold markNotificationsAsRead, notification_updateMany.
  rewrite Hf. simpl. do 9 (split; [done|]). split; [by rewrite length_fmap|].
  intros k n Hk. rewrite list_lookup_fmap, Hk. simpl. eexists. split; [done|].
  split; [|split].
  - intros Hne. rewrite decide_False; [done|]. by apply read_filter_other.
  - intros Hr Hids. rewrite decide_True; [apply mark_read_version|].
    split; [done|]. by destruct Hids as [-> | ->].
  - intros l -> Hl. split.
    + intros Hr Hin. rewrite decide_True; [apply mark_read_version|]. split; [done|].
      by case_decide.
    + intros Hnin. rewrite decide_False; [done|]. intros [_ Hin].
      destruct l; [done|]. simpl in Hin. done.
Qed.

Lemma read_scoping_witness :
  ∃ n', notifications (db (markNotificationsAsRead no_faults "ann" (Some ["n2"; "n3"])
                             SampleWorld.inbox).1) !! 1%nat = Some n'
        ∧ n' = SampleWorld.note "n2" "bob".
Proof.
  destruct (read_scoping no_faults "ann" (Some ["n2"; "n3"]) SampleWorld.inbox eq_refl)
    as (_ & _ & _ & _ & _ & _ & _ & _ & _ & _ & H).
  destruct (H 1%nat (SampleWorld.note "n2" "bob") eq_refl) as (n' & Hk & Hother & _).
  exists n'. split; [exact Hk|]. apply Hother. vm_compute. discriminate.
Defined.
End NotifyClaims.

(** ** The socket layer *)

Section SocketClaims.
Import Socket.
Implicit Types rooms : gmap string (gset string).

Lemma members_join (sid r r' : string) rooms :
  members (join sid r rooms) r'
  = if decide (r = r') then members rooms r ∪ {[sid]} else members rooms r'.
Proof.
  unfold members at 1, join. rewrite lookup_insert. by case_decide.
Qed.

Lemma join_join (sid r : string) rooms : join sid r (join sid r rooms) = join sid r rooms.
Proof.
  unfold join at 1. rewrite members_join, decide_True by done.
  unfold join. rewrite insert_insert_eq. f_equal. set_solver.
Qed.

Lemma packets_of_list (sid ev : string) (p : Payload) (l : list string) :
  NoDup l →
  filter (λ pk, to_socket pk = sid)
    ((λ k, {| to_socket := k; p_event := ev; p_payload := p |}) <$> l)
  = if decide (sid ∈ l)
    then [{| to_socket := sid; p_event := ev; p_payload := p |}] else [].
Proof.
  induction 1 as [|x l Hx Hnd IH]; [done|].
  rewrite fmap_cons, filter_cons. cbn [to_socket].
  destruct (decide (x = sid)) as [->|Hne].
  - rewrite decide_True by left. f_equal.
    rewrite IH. by rewrite decide_False.
  - rewrite IH. destruct (decide (sid ∈ l)) as [Hin|Hnin].
    + rewrite decide_True; [done|]. by right.
    + rewrite decide_False; [done|]. intros [?|?]%elem_of_cons; congruence.
Qed.

(** One emit writes one packet to each socket of the room. *)
Lemma packets_to (sid : string) rooms (e : Emit) :
  filter (λ pk, to_socket pk = sid) (packets rooms e)
  = if decide (sid ∈ members rooms (room e))
    then [{| to_socket := sid; p_event := event e; p_payload := payload e |}] else [].
Proof.
  unfold packets. rewrite packets_of_list by apply NoDup_elements.
  apply decide_ext, elem_of_elements.
Qed.

(** C9. Handling the same join message twice leaves the room table as one
    join does; for a topic that is not the empty string, a publish on the
    topic afterwards writes exactly one packet to the connection. *)
Theorem join_idempotent (sid topic : string) rooms (e : ClientEvent) :
  e = JoinUserRoom topic ∨ e = JoinContentRoom topic →
  on_event sid e (on_event sid e rooms) = on_event sid e rooms ∧
  (topic ≠ "" → ∀ ev p w, io w = Some rooms →
     let joined := (handle sid e (handle sid e w).1).1 in
     let r := emit no_faults topic ev p joined in
     io joined = Some (on_event sid e rooms) ∧
     r.2 = inr () ∧
     ∃ new, delivered r.1 = delivered w ++ new ∧
            filter (λ pk, to_socket pk = sid) new
            = [{| to_socket := sid; p_event := ev; p_payload := p |}]).
Proof.
  intros He.
  assert (Hall : on_event sid e (on_event sid e rooms) = on_event sid e rooms).
  { destruct He as [-> | ->]; simpl; destruct (Js.truthy topic) eqn:E; simpl;
      rewrite ?E, ?join_join; done. }
  split; [done|].
  intros Hne ev p w Hio joined r. subst joined r.
  unfold handle. rewrite Hio. simpl. rewrite Hall.
  split; [done|]. split; [done|].
  eexists. split; [done|]. rewrite packets_to. simpl.
  rewrite decide_True; [done|].
  assert (Ht : Js.truthy topic = true) by by apply bool_decide_eq_true.
  destruct He as [-> | ->]; simpl; rewrite Ht, members_join, decide_True by done;
    set_solver.
Qed.

Lemma join_idempotent_witness :
  ∃ new, delivered
           (emit no_faults "ann" "new_notification"
              (NotificationPayload (SampleWorld.note "n1" "ann"))
              (handle "k1" (JoinUserRoom "ann")
                 (handle "k1" (JoinUserRoom "ann") SampleWorld.world).1).1).1
         = [] ++ new
         ∧ filter (λ pk, to_socket pk = "k1") new
           = [{| to_socket := "k1"; p_event := "new_notification";
                 p_payload := NotificationPayload (SampleWorld.note "n1" "ann") |}].
Proof.
  destruct (join_idempotent "k1" "ann" SampleWorld.rooms (JoinUserRoom "ann")
              (or_introl eq_refl)) as [_ H].
  assert (Hne : "ann" ≠ "") by discriminate.
  destruct (H Hne "new_notification" (NotificationPayload (SampleWorld.note "n1" "ann"))
              SampleWorld.world eq_refl) as (_ & _ & new & Hd & Hc).
  exists new. split; [exact Hd|exact Hc].
Defined.
End SocketClaims.

Section FanOut.
Import Socket Spec.
Implicit Types rooms : gmap string (gset string).

Lemma published_nil (w : World) : published [] w = w.
Proof. destruct w. unfold published. simpl. by rewrite !app_nil_r. Qed.

Lemma published_app (es es' : list Emit) (w : World) :
  published es' (published es w) = published (es ++ es') w.
Proof.
  unfold published. simpl. by rewrite bind_app, !app_assoc.
Qed.

Lemma emit_ok (f : Faults) (r ev : string) (p : Payload) (w : World) :
  f SocketEmit = false →
  emit f r ev p w = (published (emits_to [r] ev p) w, inr ()).
Proof. intros Hf. unfold emit, published. rewrite Hf. simpl. by rewrite app_nil_r. Qed.

Lemma for_each_emit_ok {A} (f : Faults) (to : A → string) (ev : string) (p : Payload)
    (l : list A) (w : World) :
  f SocketEmit = false →
  for_each (λ x, emit f (to x) ev p) l w
  = (published (emits_to (to <$> l) ev p) w, inr ()).
Proof.
  intros Hf. revert w. induction l as [|x l IH]; intros w; simpl.
  - by rewrite published_nil.
  - unfold mbind, M_bind. rewrite emit_ok, IH, published_app by done. done.
Qed.

Lemma for_each_emit_fails {A} (f : Faults) (to : A → string) (ev : string) (p : Payload)
    (l : list A) (w : World) :
  f SocketEmit = true →
  for_each (λ x, emit f (to x) ev p) l w
  = (w, if l is [] then inr () else inl EmitFailed).
Proof.
  intros Hf. destruct l as [|x l]; simpl; [done|].
  unfold mbind, M_bind, emit. by rewrite Hf.
Qed.

(** The whole of [emitToFollowers]: either the emits, or one log line. *)
Lemma emitToFollowers_run (f : Faults) (a ev : string) (p : Payload) (w : World) :
  emitToFollowers f a ev p w
  = match fanout_error f w with
    | Some e => (logged ev a e w, inr ())
    | None => (published (emits_to (followers_of (db w) a ++ [a]) ev p) w, inr ())
    end.
Proof.
  unfold emitToFollowers, fanout_error, try_catch, mbind, M_bind, follow_findMany, getIO,
    console_error.
  destruct (f FollowFindMany); [done|].
  destruct (io w) as [rooms|] eqn:Hio; [|done].
  destruct (f SocketEmit) eqn:Hf.
  - rewrite for_each_emit_fails by done.
    destruct (filter (λ fo, followingId fo = a) (follows (db w))) as [|fo l]; [|done].
    unfold emit. by rewrite Hf.
  - rewrite for_each_emit_ok, emit_ok, published_app by done.
    unfold emits_to, followers_of. by rewrite fmap_app.
Qed.

Lemma emitToFollowers_ok (f : Faults) (a ev : string) (p : Payload) (w : World) rooms :
  f FollowFindMany = false → f SocketEmit = false → io w = Some rooms →
  emitToFollowers f a ev p w
  = (published (emits_to (followers_of (db w) a ++ [a]) ev p) w, inr ()).
Proof.
  intros H1 H2 Hio. rewrite emitToFollowers_run. unfold fanout_error.
  by rewrite H1, Hio, H2.
Qed.

Lemma count_nodup {A} `{EqDecision A} (x : A) (l : list A) :
  NoDup l → length (filter (λ y, y = x) l) = if decide (x ∈ l) then 1%nat else 0%nat.
Proof.
  induction 1 as [|y l Hy Hnd IH]; simpl; [done|].
  rewrite filter_cons. destruct (decide (y = x)) as [->|Hne]; simpl.
  - rewrite IH, decide_False, decide_True by (done || left). done.
  - rewrite IH. repeat case_decide; set_solver.
Qed.

Lemma count_follower_emits (c a ev : string) (p : Payload) (l : list Follow) :
  length (filter (λ e, room e = c)
            (emits_to (followerId <$> filter (λ fo, followingId fo = a) l) ev p))
  = length (filter (λ fo, fo = edge c a) l).
Proof.
  induction l as [|[x y] l IH]; simpl; [done|].
  rewrite !filter_cons. simpl. unfold edge in *.
  destruct (decide (y = a)) as [->|Hy]; simpl.
  - rewrite filter_cons. simpl. destruct (decide (x = c)) as [->|Hx]; simpl.
    + rewrite decide_True by done. simpl. by rewrite <- IH.
    + rewrite decide_False by congruence. done.
  - rewrite decide_False by congruence. done.
Qed.

Lemma count_author (c a ev : string) (p : Payload) :
  length (filter (λ e, room e = c) (emits_to [a] ev p))
  = if decide (a = c) then 1%nat else 0%nat.
Proof.
  unfold emits_to. rewrite list_fmap_singleton.
  destruct (decide (a = c)) as [->|Hne].
  - by rewrite filter_cons_True.
  - by rewrite filter_cons_False.
Qed.

Lemma no_packet_outside (sid : string) rooms (es : list Emit) :
  Forall (λ e, sid ∉ members rooms (room e)) es →
  filter (λ pk, to_socket pk = sid) (es ≫= packets rooms) = [].
Proof.
  induction 1 as [|e es He Hes IH]; [done|].
  rewrite bind_cons, filter_app, IH, packets_to, decide_False by done. done.
Qed.

(** C4. With the socket server running, the lookup and the emits going through, follow edges
    unique per ordered pair and no edge from the author to the author,
    [emitToFollowers] returns normally and emits the event with its payload
    once on the room of each follower and once on the author's room, and on
    no other room; a connection that sits in none of these rooms gets no
    packet. *)
Theorem fanout_audience (f : Faults) (a ev : string) (p : Payload) (w : World) rooms :
  f FollowFindMany = false → f SocketEmit = false →
  io w = Some rooms →
  NoDup (follows (db w)) →
  edge a a ∉ follows (db w) →
  let r := emitToFollowers f a ev p w in
  r.2 = inr () ∧
  ∃ new, sent r.1 = sent w ++ new ∧
         delivered r.1 = delivered w ++ (new ≫= packets rooms) ∧
         Forall (λ e, event e = ev ∧ payload e = p) new ∧
         (∀ c, length (filter (λ e, room e = c) new)
               = if decide (c = a ∨ edge c a ∈ follows (db w)) then 1%nat else 0%nat) ∧
         (∀ sid, (∀ c, sid ∈ members rooms c → c ≠ a ∧ edge c a ∉ follows (db w)) →
                 filter (λ pk, to_socket pk = sid) (new ≫= packets rooms) = []).
Proof.
  intros Hf1 Hf2 Hio Hnd Hself r. subst r.
  rewrite (emitToFollowers_ok f a ev p w rooms Hf1 Hf2 Hio).
  split; [done|]. eexists. split; [done|]. simpl. rewrite Hio. simpl.
  split; [done|].
  assert (Hcount : ∀ c, length (filter (λ e, room e = c)
                      (emits_to (followers_of (db w) a ++ [a]) ev p))
               = if decide (c = a ∨ edge c a ∈ follows (db w)) then 1%nat else 0%nat).
  { intros c. unfold emits_to. rewrite fmap_app, filter_app, length_app.
    pose proof (count_follower_emits c a ev p (follows (db w))) as Hc.
    pose proof (count_author c a ev p) as Ha.
    unfold emits_to in Hc, Ha. unfold followers_of. rewrite Hc, Ha, count_nodup by done.
    destruct (decide (a = c)) as [->|Hne].
    - rewrite decide_False by done. by rewrite decide_True by by left.
    - destruct (decide (edge c a ∈ follows (db w))) as [Hin|Hnin].
      + by rewrite decide_True by by right.
      + rewrite decide_False; [done|]. intros [?|?]; congruence. }
  split; [|split; [exact Hcount|]].
  - unfold emits_to. apply Forall_fmap, Forall_true. done.
  - intros sid Hsid. apply no_packet_outside.
    apply Forall_forall. intros e He Hin.
    destruct (Hsid _ Hin) as [H1 H2].
    specialize (Hcount (room e)).
    rewrite decide_False in Hcount by (intros [?|?]; done).
    assert (Hm : e ∈ filter (λ e', room e' = room e)
                       (emits_to (followers_of (db w) a ++ [a]) ev p))
      by by apply list_elem_of_filter.
    destruct (filter _ _); [by apply elem_of_nil in Hm|discriminate Hcount].
Qed.

Lemma fanout_audience_witness :
  ∃ new, sent (emitToFollowers no_faults "bob" "new-bug"
                 (BugPayload (Sample.a_bug "b1" "bob" 3 100)) SampleWorld.world).1 = [] ++ new
         ∧ length (filter (λ e, room e = "ann") new) = 1%nat
         ∧ length (filter (λ e, room e = "bob") new) = 1%nat
         ∧ length (filter (λ e, room e = "zoe") new) = 0%nat.
Proof.
  destruct (fanout_audience no_faults "bob" "new-bug"
              (BugPayload (Sample.a_bug "b1" "bob" 3 100))
              SampleWorld.world SampleWorld.rooms) as (_ & new & Hs & _ & _ & Hc & _).
  - reflexivity.
  - reflexivity.
  - reflexivity.
  - apply NoDup_singleton.
  - intros H. apply list_elem_of_singleton in H. discriminate H.
  - exists new. split; [exact Hs|].
    split; [|split].
    + rewrite (Hc "ann"). reflexivity.
    + rewrite (Hc "bob"). reflexivity.
    + rewrite (Hc "zoe"). reflexivity.
Defined.
End FanOut.

(** ** Failures after the write *)

Section Isolation.
Import Socket Notify Bugs Spec.

Lemma emitToFollowers_returns (f : Faults) (a ev : string) (p : Payload) (w : World) :
  (emitToFollowers f a ev p w).2 = inr ().
Proof. rewrite emitToFollowers_run. by destruct (fanout_error f w). Qed.

Lemma emitToFollowers_db (f : Faults) (a ev : string) (p : Payload) (w : World) :
  db (emitToFollowers f a ev p w).1 = db w.
Proof. rewrite emitToFollowers_run. by destruct (fanout_error f w). Qed.

Lemma createBug_run (f : Faults) (tz : Js.Zone) (nid : string) (now : Z)
    (userId : string) (body : BugBody) (v : ValidBug) (w : World) :
  bugSchema body = Some v → f BugCreate = false →
  createBug f tz nid now userId body w
  = ((emitToFollowers f userId "new-bug" (BugPayload (new_bug tz nid now userId v))
        (set_db (set_bugs (bugs (db w) ++ [new_bug tz nid now userId v]) (db w)) w)).1,
     Created (new_bug tz nid now userId v)).
Proof.
  intros Hv Hf. unfold createBug, asyncHandler. rewrite Hv.
  unfold mbind, M_bind, bug_create, detached, mret, M_ret. rewrite Hf.
  rewrite setHours_next_day. done.
Qed.

Lemma createNotification_run (f : Faults) (nid : string) (now : Z)
    (data : NotificationData) (w : World) :
  nd_recipientId data ≠ nd_senderId data →
  (createNotification f nid now data w).2
  = (match notify_error f w with Some e => inl e | None => inr () end) ∧
  console (createNotification f nid now data w).1 = console w.
Proof.
  intros Hne. unfold createNotification. rewrite decide_False by done.
  unfold mbind, M_bind, notification_create, getIO, emit, notify_error.
  destruct (f NotificationCreate); [done|]. simpl.
  destruct (io w); [|done].
  destruct (f SocketEmit); done.
Qed.

Lemma updateBugStatus_skips_notification (f : Faults) (nid : string) (now : Z)
    (userId bugId : string) (status : option string) (w : World) :
  let r := updateBugStatus f nid now userId bugId status w in
  notifications (db r.1) = notifications (db w) ∧ sent r.1 = sent w ∧
  delivered r.1 = delivered w ∧
  ∀ e, r.2 = Failed e →
       e = ValidationError ∨ e = StoreError BugFindUnique ∨ e = StoreError BugUpdate.
Proof.
  unfold updateBugStatus, asyncHandler.
  destruct (parse_status status) as [st|]; [|simpl; naive_solver].
  unfold mbind, M_bind, bug_findUnique.
  destruct (f BugFindUnique); [simpl; naive_solver|].
  destruct (head _) as [b|]; [|simpl; by repeat split].
  destruct (decide (bug_expiresAt b < now)); [simpl; by repeat split|].
  destruct (decide (authorId (bug_base b) ≠ userId)); [simpl; by repeat split|].
  unfold bug_update.
  destruct (f BugUpdate); [simpl; naive_solver|].
  destruct (head _) as [b'|]; [|simpl; naive_solver].
  simpl. by repeat split.
Qed.

(** What becomes of a failure after the write.  [emitToFollowers] never
    rejects: a failure of its follower lookup, of [getIO] or of an emit is
    caught and logged with [console.error], and the store is left as it
    was; so [createBug] answers 201 with the new row once the row is
    written, whatever happens to the fan-out.  [createNotification] has no
    handler of its own: for a recipient other than the sender a failure of
    the row creation, of [getIO] or of the emit is thrown to its caller,
    and nothing is logged.  [updateBugStatus] never reaches its
    [createNotification] call: it writes no notification, emits nothing,
    and fails only on validation or on its own two store calls. *)
Theorem downstream_failure_isolation (f : Faults) (w : World) :
  (∀ a ev p, let r := emitToFollowers f a ev p w in
     r.2 = inr () ∧ db r.1 = db w ∧
     match fanout_error f w with
     | Some e => r.1 = logged ev a e w
     | None => console r.1 = console w
     end) ∧
  (∀ tz nid now userId body v, bugSchema body = Some v → f BugCreate = false →
     let r := createBug f tz nid now userId body w in
     r.2 = Created (new_bug tz nid now userId v) ∧
     bugs (db r.1) = bugs (db w) ++ [new_bug tz nid now userId v]) ∧
  (∀ nid now data, nd_recipientId data ≠ nd_senderId data →
     let r := createNotification f nid now data w in
     r.2 = (match notify_error f w with Some e => inl e | None => inr () end) ∧
     console r.1 = console w) ∧
  (∀ nid now userId bugId status,
     let r := updateBugStatus f nid now userId bugId status w in
     notifications (db r.1) = notifications (db w) ∧ sent r.1 = sent w ∧
     delivered r.1 = delivered w ∧
     ∀ e, r.2 = Failed e →
          e = ValidationError ∨ e = StoreError BugFindUnique ∨ e = StoreError BugUpdate).
Proof.
  split; [|split; [|split]].
  - intros a ev p r. subst r.
    split; [apply emitToFollowers_returns|]. split; [apply emitToFollowers_db|].
    rewrite emitToFollowers_run. by destruct (fanout_error f w).
  - intros tz nid now userId body v Hv Hf r. subst r.
    rewrite (createBug_run f tz nid now userId body v w Hv Hf).
    split; [done|]. cbn [fst]. by rewrite emitToFollowers_db.
  - intros nid now data Hne. by apply createNotification_run.
  - intros. apply updateBugStatus_skips_notification.
Qed.

Lemma downstream_failure_isolation_witness :
  ∃ v, bugSchema SampleWorld.bug_body = Some v ∧
       (createBug SampleWorld.lookup_fails (Js.fixed_zone 0) "b9" 50 "bob"
          SampleWorld.bug_body SampleWorld.world).2
       = Created (new_bug (Js.fixed_zone 0) "b9" 50 "bob" v).
Proof.
  destruct (downstream_failure_isolation SampleWorld.lookup_fails SampleWorld.world)
    as (_ & H & _).
  eexists. split; [reflexivity|].
  apply H; reflexivity.
Defined.

(** C3, where the code departs from it.  Bob likes Ann's snippet while
    the store refuses to write the notification row: [createNotification]
    rejects with the store's error, the process is as it was and nothing
    is logged, and a handler under [asyncHandler] that awaits the call
    fails with that error whatever it meant to do next.
    [emitToFollowers], on the same process with its own store call
    refused, logs the error and returns. *)
Theorem notification_failure_propagates :
  createNotification SampleWorld.create_fails "n9" 50 SampleWorld.bob_likes_ann
    SampleWorld.world
  = (SampleWorld.world, inl (StoreError NotificationCreate))
  ∧ (∀ rest : M Reply,
       asyncHandler
         (_ ← createNotification SampleWorld.create_fails "n9" 50
                SampleWorld.bob_likes_ann; rest) SampleWorld.world
       = (SampleWorld.world, Failed (StoreError NotificationCreate)))
  ∧ emitToFollowers SampleWorld.lookup_fails "bob" "new-snippet"
      (SnippetPayload (Sample.a_snippet "s1" "bob" 1)) SampleWorld.world
    = (logged "new-snippet" "bob" (StoreError FollowFindMany) SampleWorld.world, inr ()).
Proof.
  split; [reflexivity|]. split; [|reflexivity].
  intros rest. reflexivity.
Qed.
End Isolation.

(** ** The public feed *)

Section PublicFeedFacts.
Import Feed PublicFeed Spec.

Lemma public_rows (db : Db) (limit skip : Z) :
  0 ≤ limit → 0 ≤ skip →
  public_snippets db limit skip
  = take (Z.to_nat limit) (drop (Z.to_nat skip) (timeline db)).
Proof.
  intros Hl Hs. unfold public_snippets, Prisma.findMany, Prisma.window.
  by rewrite decide_True by done.
Qed.

Lemma getPublicFeed_page (db : Db) (page limit : Z) :
  1 ≤ page → 0 < limit →
  getPublicFeed no_faults db (page_query page limit)
  = let rows := take (Z.to_nat limit) (drop (Z.to_nat ((page - 1) * limit)) (timeline db)) in
    Json {| data := public_item <$> rows; total := Z.of_nat (length rows); page := page;
            hasMore := bool_decide (Z.of_nat (length rows) = limit) |}.
Proof.
  intros Hp Hl. unfold getPublicFeed, page_query, no_faults. cbn [q_page q_limit].
  unfold Js.or_default.
  rewrite (decide_False (P := page = 0)), (decide_False (P := limit = 0)) by lia.
  rewrite (decide_False (P := (page - 1) * limit < 0)) by nia.
  rewrite public_rows by nia.
  cbv zeta. by rewrite length_fmap.
Qed.







End PublicFeedFacts.

Section PublicFeedEdges.
Import Feed PublicFeed Spec.

Lemma public_page_rows (db : Db) (page limit : Z) :
  1 ≤ page → 0 < limit →
  items (getPublicFeed no_faults db (page_query page limit))
  = public_item <$> take (Z.to_nat limit)
                      (drop (Z.to_nat ((page - 1) * limit)) (timeline db)).
Proof. intros Hp Hl. by rewrite getPublicFeed_page. Qed.

(** [hasMore] of the public feed says that the page is full.  When it is
    false the next page is empty; when the number of public snippets is an
    exact multiple of the page size, the last full page still reports
    [hasMore = true] and the page after it is empty. *)
Theorem public_hasMore (db : Db) (page limit : Z) :
  1 ≤ page → 0 < limit →
  ∃ p, getPublicFeed no_faults db (page_query page limit) = Json p ∧
       total p = Z.of_nat (length (data p)) ∧ total p ≤ limit ∧
       (hasMore p = true ↔ page * limit ≤ Z.of_nat (length (timeline db))) ∧
       (hasMore p = false →
          items (getPublicFeed no_faults db (page_query (page + 1) limit)) = []) ∧
       (Z.of_nat (length (timeline db)) = page * limit →
          hasMore p = true ∧
          items (getPublicFeed no_faults db (page_query (page + 1) limit)) = []).
Proof.
  intros Hp Hl. rewrite getPublicFeed_page by done. cbv zeta.
  eexists. split; [done|]. cbn [data total hasMore].
  rewrite public_page_rows by lia.
  rewrite !length_fmap, length_take, length_drop.
  assert (Hnext : Z.of_nat (length (timeline db)) ≤ page * limit →
            public_item <$> take (Z.to_nat limit)
              (drop (Z.to_nat ((page + 1 - 1) * limit)) (timeline db)) = []).
  { intros Hle. rewrite drop_ge; [by rewrite take_nil|]. nia. }
  assert (Hfull : Z.of_nat (Z.to_nat limit `min`
                    (length (timeline db) - Z.to_nat ((page - 1) * limit))) = limit
                  ↔ page * limit ≤ Z.of_nat (length (timeline db))) by nia.
  split; [done|]. split; [lia|]. split; [|split].
  - by rewrite bool_decide_eq_true.
  - intros Hf%bool_decide_eq_false. apply Hnext. rewrite Hfull in Hf. lia.
  - intros Hlen. split; [|apply Hnext; lia].
    apply bool_decide_eq_true, Hfull. lia.
Qed.

Lemma public_hasMore_witness :
  ∃ p, getPublicFeed no_faults Sample.three_db (page_query 1 1) = Json p ∧
       hasMore p = true ∧
       items (getPublicFeed no_faults Sample.three_db (page_query 2 1)) = [].
Proof.
  destruct (public_hasMore Sample.three_db 1 1) as (p & Hp & _ & _ & _ & _ & Hb);
    [reflexivity..|].
  exists p. split; [exact Hp|]. apply Hb. reflexivity.
Defined.

(** The fallback of [getFeed] is the first page of the public feed: with
    an empty merged list on page 1, [getFeed] and [getPublicFeed] give the
    same answer, failure of the snippet query included. *)
Theorem fallback_is_public_feed (f : Faults) (db : Db) (now : Z) (userId : string)
    (q : Query) :
  f FollowFindMany = false → f DocFindMany = false → f BugFindMany = false →
  merged db now userId (Js.or_default (q_limit q) 10) = [] →
  Js.or_default (q_page q) 1 = 1 →
  getFeed f db now userId q = getPublicFeed f db q.
Proof.
  intros H1 H2 H3 Hm Hp. unfold getFeed, getPublicFeed.
  rewrite H1, H2, H3, Hm, Hp. destruct (f SnippetFindMany); [done|].
  cbn [orb length]. rewrite !bool_decide_eq_true_2 by done. cbn [andb].
  rewrite decide_False by lia. done.
Qed.

Lemma fallback_is_public_feed_witness :
  getFeed no_faults Sample.three_db 10 "zoe" default_query
  = getPublicFeed no_faults Sample.three_db default_query.
Proof.
  apply (fallback_is_public_feed no_faults Sample.three_db 10 "zoe" default_query);
    reflexivity.
Defined.

Lemma in_audience (db : Db) (userId a : string) :
  a ∈ followingIds db userId ↔ a = userId ∨ edge userId a ∈ follows db.
Proof.
  unfold followingIds. rewrite elem_of_app, list_elem_of_singleton, list_elem_of_fmap.
  split.
  - intros [(fo & -> & Hf)| ->]; [right|by left].
    apply list_elem_of_filter in Hf as [Hfo Hin].
    destruct fo as [x y]. simpl in *. by subst.
  - intros [-> |Hin]; [by right|left].
    exists (edge userId a). split; [done|]. by apply list_elem_of_filter.
Qed.

(** What [getFeed] can show.  Every item is a row of the store; a snippet
    or doc shown is public, whoever asks.  An item that carries the viewer's
    flags was written by the viewer or by someone the viewer follows; an
    item of any other author appears only in the public fallback, and is
    then a snippet. *)
Theorem feed_visibility (f : Faults) (db : Db) (now : Z) (userId : string) (q : Query)
    (i : FeedItem) :
  i ∈ items (getFeed f db now userId q) →
  match fi_row i with
  | SnippetRow s => s ∈ snippets db ∧ snippet_isPublic s = true
  | DocRow d => d ∈ docs db ∧ doc_isPublic d = true
  | BugRow b => b ∈ bugs db ∧ now < bug_expiresAt b
  end ∧
  (let a := authorId (row_base (fi_row i)) in
   a = userId ∨ edge userId a ∈ follows db ∨
   (isLiked i = None ∧ isBookmarked i = None ∧ fi_type i = snippet ∧
    Js.or_default (q_page q) 1 = 1)).
Proof.
  unfold getFeed.
  destruct (f FollowFindMany); [by intros ?%elem_of_nil|].
  destruct (f SnippetFindMany || f DocFindMany || f BugFindMany); [by intros ?%elem_of_nil|].
  destruct (bool_decide (length _ = 0%nat) && bool_decide _) eqn:E; cbn [items data].
  - apply andb_true_iff in E as [_ E%bool_decide_eq_true].
    intros (s & -> & Hs)%list_elem_of_fmap.
    apply findMany_where in Hs as [Hp Hs]. cbn. split; [done|]. by right; right.
  - intros Hi%slice_subseteq. rewrite merged_perm in Hi. unfold concatenated in Hi.
    rewrite !elem_of_app, !list_elem_of_fmap in Hi.
    destruct Hi as [(s & -> & Hs)|[(d & -> & Hd)|(b & -> & Hb)]]; cbn.
    + apply findMany_where in Hs as [[Ha Hp] Hs]. split; [done|].
      apply in_audience in Ha. tauto.
    + apply findMany_where in Hd as [[Ha Hp] Hd]. split; [done|].
      apply in_audience in Ha. tauto.
    + apply findMany_where in Hb as [[Ha Hp] Hb]. split; [done|].
      apply in_audience in Ha. tauto.
Qed.

Lemma feed_visibility_witness :
  ∃ d, d ∈ docs Sample.three_db ∧ doc_isPublic d = true.
Proof.
  exists (Sample.a_doc "d1" "bob" 2).
  apply (feed_visibility no_faults Sample.three_db 10 "ann" default_query
           (personal_item "ann" doc (DocRow (Sample.a_doc "d1" "bob" 2)))).
  vm_compute. right. left.
Defined.
End PublicFeedEdges.

(** ** The hourly sweep *)

Section Sweep.
Import Feed Spec.



Section Cascade.
Context (cs : list Comment) (gone_bugs : list string).

Lemma refers_spec (ids : list string) (o : option string) :
  Cron.refers ids o ↔ ∃ x, o = Some x ∧ x ∈ ids.
Proof.
  destruct o as [x|]; cbn.
  - rewrite bool_decide_spec. naive_solver.
  - naive_solver.
Qed.

Lemma cascade_step_spec (gone : list string) (x : string) :
  x ∈ Cron.cascade_step cs gone_bugs gone ↔
  ∃ c, c ∈ cs ∧ c_id c = x ∧
       (Cron.refers gone_bugs (c_bugId c) ∨ Cron.refers gone (c_parentId c)).
Proof.
  unfold Cron.cascade_step. rewrite list_elem_of_fmap. split.
  - intros (c & -> & Hc). apply list_elem_of_filter in Hc as [Hc Hin].
    apply orb_True in Hc. by exists c.
  - intros (c & Hin & <- & Hc). exists c. split; [done|].
    apply list_elem_of_filter. split; [|done]. by apply orb_True.
Qed.

Lemma refers_mono (a b : list string) (o : option string) :
  a ⊆ b → Cron.refers a o → Cron.refers b o.
Proof. rewrite !refers_spec. intros Hab (x & -> & Hx). exists x. auto. Qed.

Lemma cascade_step_mono (a b : list string) :
  a ⊆ b → Cron.cascade_step cs gone_bugs a ⊆ Cron.cascade_step cs gone_bugs b.
Proof.
  intros Hab x. rewrite !cascade_step_spec. intros (c & Hin & Hid & [Hc|Hc]).
  - exists c. auto.
  - exists c. split; [done|]. split; [done|]. right. by apply (refers_mono a).
Qed.

Lemma cascade_mono (k : nat) :
  Cron.cascade k cs gone_bugs ⊆ Cron.cascade (S k) cs gone_bugs.
Proof.
  induction k as [|k IH]; [by intros x Hx%elem_of_nil|].
  cbn [Cron.cascade] in *. by apply cascade_step_mono.
Qed.

Lemma cascade_mono_le (j k : nat) :
  (j ≤ k)%nat → Cron.cascade j cs gone_bugs ⊆ Cron.cascade k cs gone_bugs.
Proof.
  induction 1 as [|k Hle IH]; [done|]. etrans; [exact IH|apply cascade_mono].
Qed.




End Cascade.




End Sweep.

(** ** The bug controller *)

Section BugFacts.
Import Feed Socket Bugs Spec.





(** The instant [expiresAt = now] falls between the three expiry tests: the
    bug is already out of every feed, the sweep still keeps it, and its
    author can still change its status. *)
Theorem expiry_boundary (f : Faults) (now : Z) (b : Bug) (w : World) :
  head (filter (λ x, id (bug_base x) = id (bug_base b)) (bugs (db w))) = Some b →
  bug_expiresAt b = now →
  (∀ userId q i, i ∈ items (getFeed f (db w) now userId q) → fi_row i ≠ BugRow b) ∧
  (∀ cs, b ∈ bugs (Cron.cleanup false now cs (db w)).1) ∧
  (∀ nid s st, parse_status (Some s) = Some st →
     (updateBugStatus no_faults nid now (authorId (bug_base b)) (id (bug_base b))
        (Some s) w).2 = Updated (with_status st b)).
Proof.
  intros Hhead Hexp.
  assert (Hin : b ∈ bugs (db w)).
  { apply head_Some_elem_of in Hhead. by apply list_elem_of_filter in Hhead as [_ ?]. }
  split; [|split].
  - intros userId q i Hi Hrow.
    apply items_origin in Hi as [(s & -> & _)|Hi]; [done|].
    unfold concatenated in Hi. rewrite !elem_of_app, !list_elem_of_fmap in Hi.
    destruct Hi as [(s & -> & Hs)|[(d & -> & Hd)|(b' & -> & Hb)]]; try done.
    injection Hrow as ->. apply findMany_where in Hb as [[_ Hact] _]. lia.
  - intros cs. cbn. apply list_elem_of_filter. split; [lia|done].
  - intros nid s st Hst.
    unfold updateBugStatus, asyncHandler. rewrite Hst.
    unfold mbind, M_bind, bug_findUnique, bug_update, no_faults. rewrite Hhead.
    rewrite decide_False by lia. rewrite decide_False by (by intros ?).
    rewrite decide_False by (by intros ?). rewrite Hhead. done.
Qed.

Lemma expiry_boundary_witness :
  (updateBugStatus no_faults "n9" 100 "bob" "b1" (Some "RESOLVED") SampleWorld.world).2
  = Updated (with_status RESOLVED (Sample.a_bug "b1" "bob" 3 100)).
Proof.
  destruct (expiry_boundary no_faults 100 (Sample.a_bug "b1" "bob" 3 100) SampleWorld.world)
    as (_ & _ & H); [reflexivity..|].
  apply (H "n9" "RESOLVED" RESOLVED). reflexivity.
Defined.

Lemma bugSchema_sound (body : BugBody) (v : ValidBug) :
  bugSchema body = Some v →
  b_title body = Some (v_title v) ∧ b_description body = Some (v_description v) ∧
  b_content body = Some (v_content v) ∧
  (1 ≤ Js.utf16_length (v_title v) ≤ 100)%nat ∧
  (1 ≤ Js.utf16_length (v_description v) ≤ 500)%nat ∧
  (1 ≤ Js.utf16_length (v_content v))%nat ∧
  (b_severity body = None → v_severity v = MEDIUM) ∧
  (b_tags body = None → v_tags v = []).
Proof.
  unfold bugSchema. destruct (b_title body) as [t|]; [|done].
  destruct (b_description body) as [d|]; [|done].
  destruct (b_content body) as [c|]; [|done]. cbn.
  destruct (parse_severity (b_severity body)) as [sev|] eqn:Hsev; [|done]. cbn.
  destruct (sized 1 100 t) eqn:Ht; [|done]. destruct (sized 1 500 d) eqn:Hd; [|done].
  destruct (bool_decide _) eqn:Hc; [|done]. cbn. intros [= <-]. cbn.
  apply bool_decide_eq_true in Ht, Hd, Hc.
  repeat split; try done; try lia.
  - intros Hn. rewrite Hn in Hsev. by injection Hsev.
  - by intros ->.
Qed.

(** [createBug] writes a row only for a body that passes the schema: a
    title of 1 to 100 UTF-16 units, a description of 1 to 500, a
    non-empty content.  The row carries these fields, belongs to the
    caller, is [OPEN] and has no likes.  Its [expiresAt] is the instant at
    which the wall clock of the host shows the time of day of the request
    one calendar day on: 86 400 000 ms after the request where the
    host's offset from UTC is the same at both ends, and otherwise
    earlier or later by the change of offset.  Every other outcome leaves
    the process exactly as it was: no row, no emit, no log line. *)
Theorem createBug_validates (f : Faults) (tz : Js.Zone) (nid : string) (now : Z)
    (userId : string) (body : BugBody) (w : World) :
  let r := createBug f tz nid now userId body w in
  (∀ b, r.2 = Created b →
     b_title body = Some (title (bug_base b)) ∧
     b_description body = Some (bug_description b) ∧
     b_content body = Some (bug_content b) ∧
     (1 ≤ Js.utf16_length (title (bug_base b)) ≤ 100)%nat ∧
     (1 ≤ Js.utf16_length (bug_description b) ≤ 500)%nat ∧
     (1 ≤ Js.utf16_length (bug_content b))%nat ∧
     id (bug_base b) = nid ∧ authorId (bug_base b) = userId ∧
     bug_status b = OPEN ∧ likes (bug_base b) = [] ∧
     (let wall := now + Js.offset_at tz now + 86400000 in
      bug_expiresAt b = wall - Js.offset_of_local tz wall ∧
      (Js.offset_of_local tz wall = Js.offset_at tz now →
         bug_expiresAt b = now + 86400000)) ∧
     bugs (db r.1) = bugs (db w) ++ [b]) ∧
  ((∀ b, r.2 ≠ Created b) → r.1 = w).
Proof.
  unfold createBug, asyncHandler.
  destruct (bugSchema body) as [v|] eqn:Hv; [|cbn; by split].
  unfold mbind, M_bind, bug_create, detached, mret, M_ret.
  destruct (f BugCreate); [cbn; by split|]. cbn [fst snd].
  apply bugSchema_sound in Hv as (Ht & Hd & Hc & Lt & Ld & Lc & _).
  split.
  - intros b [= <-]. cbn. rewrite emitToFollowers_db, setHours_next_day.
    unfold same_time_next_day, Js.UTC, Js.LocalTime.
    repeat split; try done; try lia.
  - intros Hno. by destruct (Hno _ eq_refl).
Qed.

(** On a host that leaves summer time (UTC+2 to UTC+1) ten minutes after
    the request, the bug lives for 25 hours. *)
Lemma createBug_validates_witness :
  ∃ b, (createBug no_faults Sample.autumn "b9" 3000000 "bob" SampleWorld.bug_body
          SampleWorld.world).2 = Created b
       ∧ bug_expiresAt b = 3000000 + 90000000.
Proof.
  eexists. split; [reflexivity|].
  destruct (createBug_validates no_faults Sample.autumn "b9" 3000000 "bob"
              SampleWorld.bug_body SampleWorld.world) as [H _].
  destruct (H _ eq_refl) as (_ & _ & _ & _ & _ & _ & _ & _ & _ & _ & [He _] & _).
  rewrite He. reflexivity.
Defined.

(** A successful [createBug] announces the new row with one [new-bug] emit
    on the room of each follower of the author, in the order of the follow
    table, and then one on the author's own room. *)
Theorem createBug_announced (f : Faults) (tz : Js.Zone) (nid : string) (now : Z)
    (userId : string) (body : BugBody) (v : ValidBug) (w : World)
    (rooms : gmap string (gset string)) :
  bugSchema body = Some v →
  f BugCreate = false → f FollowFindMany = false → f SocketEmit = false →
  io w = Some rooms →
  let r := createBug f tz nid now userId body w in
  sent r.1 = sent w ++ emits_to (followers_of (db w) userId ++ [userId]) "new-bug"
                         (BugPayload (new_bug tz nid now userId v)) ∧
  console r.1 = console w.
Proof.
  intros Hv H1 H2 H3 Hio r. subst r.
  rewrite (createBug_run f tz nid now userId body v w Hv H1). cbn [fst].
  by rewrite (emitToFollowers_ok f userId "new-bug" _ (set_db _ w) rooms H2 H3 Hio).
Qed.

Lemma createBug_announced_witness :
  room <$> sent (createBug no_faults (Js.fixed_zone 0) "b9" 50 "bob" SampleWorld.bug_body
                   SampleWorld.world).1 = ["ann"; "bob"].
Proof.
  destruct (createBug_announced no_faults (Js.fixed_zone 0) "b9" 50 "bob"
              SampleWorld.bug_body
              {| v_title := "crash"; v_description := "it crashes"; v_content := "steps";
                 v_severity := MEDIUM; v_tags := []; v_media := [] |}
              SampleWorld.world SampleWorld.rooms) as [Hs _]; [reflexivity..|].
  rewrite Hs. reflexivity.
Defined.
End BugFacts.

(** ** A new bug in the feed *)

Section BugInFeed.
Import Feed Socket Bugs Spec.




End BugInFeed.

(** ** Listing, counting and marking notifications *)

Section InboxFacts.
Import Notify Inbox Spec.

(** A page of the inbox holds only notifications of the user, newest
    first, at most [limit] of them; the total counts all notifications of
    the user whatever the page, and a page is empty exactly when the total
    does not reach past the pages before it. *)
Theorem inbox_pagination (userId : string) (page limit : Z) (d : Db) :
  1 ≤ page → 0 < limit →
  ∃ l, getNotifications healthy userId page limit d = inr l ∧
       Forall (λ n, recipientId n = userId ∧ n ∈ notifications d) (l_notifications l) ∧
       StronglySorted (λ a b, n_createdAt b ≤ n_createdAt a) (l_notifications l) ∧
       l_total l = length (filter (λ n, recipientId n = userId) (notifications d)) ∧
       Z.of_nat (length (l_notifications l))
       = Z.max 0 (Z.min limit (Z.of_nat (l_total l) - (page - 1) * limit)) ∧
       (l_notifications l = [] ↔ Z.of_nat (l_total l) ≤ (page - 1) * limit).
Proof.
  intros Hp Hl. unfold getNotifications, healthy. cbn [findMany_fails count_fails].
  rewrite decide_False by nia. eexists. split; [done|]. cbn.
  set (rows := Prisma.findMany _ _ _ _ _).
  assert (Hrows : rows = take (Z.to_nat limit) (drop (Z.to_nat ((page - 1) * limit))
                   (Prisma.newest_first n_createdAt
                      (filter (λ n, recipientId n = userId) (notifications d))))).
  { unfold rows, Prisma.findMany, Prisma.window.
    by rewrite decide_True by lia. }
  assert (Hlen : Z.of_nat (length rows)
            = Z.max 0 (Z.min limit
                (Z.of_nat (length (filter (λ n, recipientId n = userId) (notifications d)))
                 - (page - 1) * limit))).
  { rewrite Hrows, length_take, length_drop. unfold Prisma.newest_first.
    rewrite sort_length. nia. }
  split; [|split; [|split; [done|split; [done|]]]].
  - apply Forall_forall. intros n Hn. by apply findMany_where in Hn.
  - rewrite Hrows. apply sorted_window, (sort_sorted n_createdAt).
  - rewrite <- length_zero_iff_nil. lia.
Qed.

Lemma inbox_pagination_witness :
  ∃ l, getNotifications healthy "ann" 2 1 (db SampleWorld.inbox) = inr l ∧
       l_total l = 2%nat ∧ Z.of_nat (length (l_notifications l)) = 1.
Proof.
  destruct (inbox_pagination "ann" 2 1 (db SampleWorld.inbox)) as
    (l & Hl & _ & _ & Ht & Hn & _); [lia..|].
  exists l. split; [exact Hl|]. split; [rewrite Ht; reflexivity|].
  rewrite Hn, Ht. reflexivity.
Defined.

Lemma unread_after_update (P : Notification → Prop) `{∀ n, Decision (P n)}
    (v : string) (ns : list Notification) :
  length (filter (λ n, recipientId n = v ∧ read n = false)
            ((λ n, if decide (P n) then mark_read n else n) <$> ns))
  = length (filter (λ n, (recipientId n = v ∧ read n = false) ∧ ¬ P n) ns).
Proof.
  induction ns as [|n ns IH]; [done|].
  rewrite fmap_cons, !filter_cons. destruct (decide (P n)) as [HP|HP]; cbn [recipientId read mark_read].
  - rewrite decide_False by (by intros [_ ?]).
    rewrite decide_False by (by intros [_ ?]). done.
  - destruct (decide (recipientId n = v ∧ read n = false)) as [Hc|Hc].
    + rewrite decide_True by done. cbn. by rewrite IH.
    + rewrite decide_False by (by intros [? _]). done.
Qed.

Lemma filter_nothing {A} (P : A → Prop) `{∀ x, Decision (P x)} (l : list A) :
  (∀ x, ¬ P x) → filter P l = [].
Proof.
  intros HP. induction l as [|x l IH]; [done|].
  by rewrite filter_cons, decide_False.
Qed.

Lemma filter_and_le {A} (P Q : A → Prop) `{∀ x, Decision (P x)} `{∀ x, Decision (Q x)}
    (l : list A) :
  (length (filter (λ x, P x ∧ Q x) l) ≤ length (filter P l))%nat.
Proof.
  induction l as [|x l IH]; [done|]. rewrite !filter_cons.
  destruct (decide (P x)) as [HP|HP].
  - destruct (decide (P x ∧ Q x)); cbn; lia.
  - rewrite decide_False by (by intros [? _]). done.
Qed.

(** Marking everything read empties the user's unread count; marking, with
    or without a list, never changes the unread count of another user; and
    marking twice is marking once. *)
Theorem mark_read_counts (f : Faults) (userId : string) (ids : option (list string))
    (w : World) :
  f NotificationUpdateMany = false →
  let w' := (markNotificationsAsRead f userId ids w).1 in
  (ids = None ∨ ids = Some [] → getUnreadNotificationCount userId (db w') = 0%nat) ∧
  (∀ v, v ≠ userId →
     getUnreadNotificationCount v (db w') = getUnreadNotificationCount v (db w)) ∧
  (getUnreadNotificationCount userId (db w')
   ≤ getUnreadNotificationCount userId (db w))%nat ∧
  (markNotificationsAsRead f userId ids w').1 = w'.
Proof.
  intros Hf w'. subst w'.
  unfold markNotificationsAsRead, notification_updateMany, getUnreadNotificationCount.
  rewrite Hf. cbn [fst db set_db notifications set_notifications].
  split; [|split; [|split]].
  - intros Hids. rewrite unread_after_update.
    apply length_zero_iff_nil, filter_nothing.
    intros n [[Hr _] Hn]. apply Hn. split; [done|].
    by destruct Hids as [-> | ->].
  - intros v Hv. rewrite unread_after_update. f_equal. apply list_filter_iff. intros n. split; [by intros [? _]|].
    intros [Hr Hu]. split; [done|]. intros [Hn _]. congruence.
  - rewrite unread_after_update. apply filter_and_le.
  - destruct w as [d i s dl c]. unfold set_db, set_notifications. cbn. f_equal. f_equal.
    rewrite <- list_fmap_compose. apply list_fmap_ext. intros k n _. cbn.
    destruct (decide (read_filter userId ids n)) as [Hn|Hn].
    + by destruct (decide (read_filter userId ids (mark_read n))).
    + by rewrite decide_False.
Qed.

Lemma mark_read_counts_witness :
  getUnreadNotificationCount "ann"
    (db (markNotificationsAsRead no_faults "ann" None SampleWorld.inbox).1) = 0%nat
  ∧ getUnreadNotificationCount "bob"
      (db (markNotificationsAsRead no_faults "ann" None SampleWorld.inbox).1) = 1%nat.
Proof.
  destruct (mark_read_counts no_faults "ann" None SampleWorld.inbox eq_refl)
    as (Hall & Hother & _).
  split; [apply Hall; by left|].
  rewrite Hother by discriminate. reflexivity.
Defined.
End InboxFacts.

(** ** Creating and delivering notifications *)

Section Delivery.
Import Socket Notify Spec.
Implicit Types rooms : gmap string (gset string).

Lemma createNotification_ok (f : Faults) (nid : string) (now : Z)
    (data : NotificationData) (w : World) rooms :
  nd_recipientId data ≠ nd_senderId data →
  f NotificationCreate = false → f SocketEmit = false → io w = Some rooms →
  createNotification f nid now data w
  = (published (emits_to [nd_recipientId data] "new_notification"
                  (NotificationPayload (new_row nid now data)))
       (set_db (set_notifications (notifications (db w) ++ [new_row nid now data]) (db w))
          w),
     inr ()).
Proof.
  intros Hne H1 H2 Hio. unfold createNotification. rewrite decide_False by done.
  unfold mbind, M_bind, notification_create, getIO. rewrite H1. cbn [io set_db].
  rewrite Hio. by rewrite emit_ok.
Qed.

Lemma unread_snoc (v : string) (d : Db) (n : Notification) :
  getUnreadNotificationCount v (set_notifications (notifications d ++ [n]) d)
  = (getUnreadNotificationCount v d
     + if decide (recipientId n = v ∧ read n = false) then 1 else 0)%nat.
Proof.
  unfold getUnreadNotificationCount. cbn [notifications set_notifications].
  rewrite filter_app, length_app, filter_cons, filter_nil. by case_decide.
Qed.

(** For a recipient other than the sender, with the store, the socket
    server and the emit all working, [createNotification] appends exactly
    one unread row, emits it once as [new_notification] on the recipient's
    room and on no other, and so raises the recipient's unread count by one
    and nobody else's.  Only sockets sitting in that room get the packet:
    with nobody in the room the row is stored and nothing is delivered. *)
Theorem createNotification_delivers (f : Faults) (nid : string) (now : Z)
    (data : NotificationData) (w : World) rooms :
  nd_recipientId data ≠ nd_senderId data →
  f NotificationCreate = false → f SocketEmit = false → io w = Some rooms →
  let r := createNotification f nid now data w in
  let n := new_row nid now data in
  let e := {| room := nd_recipientId data; event := "new_notification";
              payload := NotificationPayload n |} in
  r.2 = inr () ∧
  notifications (db r.1) = notifications (db w) ++ [n] ∧
  sent r.1 = sent w ++ [e] ∧
  delivered r.1 = delivered w ++ packets rooms e ∧
  (∀ sid, sid ∉ members rooms (nd_recipientId data) →
          filter (λ pk, to_socket pk = sid) (packets rooms e) = []) ∧
  (members rooms (nd_recipientId data) = ∅ → delivered r.1 = delivered w) ∧
  getUnreadNotificationCount (nd_recipientId data) (db r.1)
  = S (getUnreadNotificationCount (nd_recipientId data) (db w)) ∧
  (∀ v, v ≠ nd_recipientId data →
        getUnreadNotificationCount v (db r.1) = getUnreadNotificationCount v (db w)).
Proof.
  intros Hne H1 H2 Hio r n e. subst r n e.
  rewrite (createNotification_ok f nid now data w rooms Hne H1 H2 Hio).
  cbn [fst snd published db sent delivered io set_db emits_to fmap list_fmap].
  rewrite Hio. cbn [default mbind list_bind]. rewrite app_nil_r.
  split; [done|]. split; [done|]. split; [done|]. split; [done|].
  split; [|split; [|split]].
  - intros sid Hsid. rewrite packets_to. by rewrite decide_False.
  - intros Hempty. unfold packets. cbn [room].
    change (Datatypes.id rooms) with rooms. rewrite Hempty, elements_empty.
    by rewrite app_nil_r.
  - rewrite unread_snoc. rewrite decide_True by done. lia.
  - intros v Hv. rewrite unread_snoc. rewrite decide_False; [lia|].
    intros [Hr _]. by destruct Hv.
Qed.

Lemma createNotification_delivers_witness :
  getUnreadNotificationCount "ann"
    (db (createNotification no_faults "n9" 50 SampleWorld.bob_likes_ann
           SampleWorld.world).1) = 1%nat.
Proof.
  destruct (createNotification_delivers no_faults "n9" 50 SampleWorld.bob_likes_ann
              SampleWorld.world SampleWorld.rooms) as (_ & _ & _ & _ & _ & _ & Hc & _).
  - discriminate.
  - reflexivity.
  - reflexivity.
  - reflexivity.
  - etrans; [exact Hc|reflexivity].
Defined.

(** [createNotification] does not deduplicate: two calls with the same
    data write two rows and emit twice. *)
Theorem createNotification_no_dedup (f : Faults) (nid1 nid2 : string) (now1 now2 : Z)
    (data : NotificationData) (w : World) rooms :
  nd_recipientId data ≠ nd_senderId data →
  f NotificationCreate = false → f SocketEmit = false → io w = Some rooms →
  let w2 := (createNotification f nid2 now2 data
               (createNotification f nid1 now1 data w).1).1 in
  notifications (db w2)
  = notifications (db w) ++ [new_row nid1 now1 data; new_row nid2 now2 data] ∧
  length (sent w2) = (length (sent w) + 2)%nat.
Proof.
  intros Hne H1 H2 Hio w2. subst w2.
  rewrite (createNotification_ok f nid1 now1 data w rooms Hne H1 H2 Hio). cbn [fst].
  set (w1 := published _ _).
  rewrite (createNotification_ok f nid2 now2 data w1 rooms Hne H1 H2 Hio).
  unfold w1. cbn [fst published db sent set_db set_notifications notifications].
  rewrite <- !app_assoc, !length_app. cbn. split; [done|lia].
Qed.

Lemma createNotification_no_dedup_witness :
  length (notifications
            (db (createNotification no_faults "n8" 51 SampleWorld.bob_likes_ann
                   (createNotification no_faults "n9" 50 SampleWorld.bob_likes_ann
                      SampleWorld.world).1).1)) = 2%nat.
Proof.
  destruct (createNotification_no_dedup no_faults "n9" "n8" 50 51 SampleWorld.bob_likes_ann
              SampleWorld.world SampleWorld.rooms) as [Hn _].
  - discriminate.
  - reflexivity.
  - reflexivity.
  - reflexivity.
  - etrans; [exact (f_equal length Hn)|reflexivity].
Defined.

(** When [createNotification] fails after the insert (the socket server
    was never started, or the emit throws), the call rejects but the row
    it wrote stays in the store, and nothing was emitted. *)
Theorem notification_row_survives_emit_failure (f : Faults) (nid : string) (now : Z)
    (data : NotificationData) (w : World) :
  nd_recipientId data ≠ nd_senderId data →
  f NotificationCreate = false →
  io w = None ∨ f SocketEmit = true →
  let r := createNotification f nid now data w in
  (∃ e, r.2 = inl e ∧ (e = SocketNotInitialized ∨ e = EmitFailed)) ∧
  notifications (db r.1) = notifications (db w) ++ [new_row nid now data] ∧
  sent r.1 = sent w ∧ delivered r.1 = delivered w.
Proof.
  intros Hne H1 Hfail r. subst r. unfold createNotification.
  rewrite decide_False by done.
  unfold mbind, M_bind, notification_create, getIO, emit. rewrite H1. cbn [io set_db].
  destruct (io w) as [rooms|] eqn:Hio.
  - destruct Hfail as [?|H2]; [done|]. rewrite H2. cbn.
    split; [exists EmitFailed; split; [done|by right]|by repeat split].
  - cbn. split; [exists SocketNotInitialized; split; [done|by left]|by repeat split].
Qed.

Lemma notification_row_survives_emit_failure_witness :
  length (notifications
            (db (createNotification no_faults "n9" 50 SampleWorld.bob_likes_ann
                   {| db := Sample.three_db; io := None; sent := []; delivered := [];
                      console := [] |}).1)) = 1%nat.
Proof.
  destruct (notification_row_survives_emit_failure no_faults "n9" 50
              SampleWorld.bob_likes_ann
              {| db := Sample.three_db; io := None; sent := []; delivered := [];
                 console := [] |}) as (_ & Hn & _).
  - discriminate.
  - reflexivity.
  - left. reflexivity.
  - etrans; [exact (f_equal length Hn)|reflexivity].
Defined.

(** [join-user-room] checks nothing but that the id is not empty: whatever
    socket sends it for a user id receives that user's notifications from
    then on, one packet per notification. *)
Theorem join_user_room_unchecked (f : Faults) (sid userId nid : string) (now : Z)
    (data : NotificationData) (w : World) rooms :
  userId ≠ "" → nd_recipientId data = userId → nd_senderId data ≠ userId →
  f NotificationCreate = false → f SocketEmit = false → io w = Some rooms →
  let joined := (handle sid (JoinUserRoom userId) w).1 in
  let r := createNotification f nid now data joined in
  ∃ new, delivered r.1 = delivered w ++ new ∧
         filter (λ pk, to_socket pk = sid) new
         = [{| to_socket := sid; p_event := "new_notification";
               p_payload := NotificationPayload (new_row nid now data) |}].
Proof.
  intros Hu Hr Hs H1 H2 Hio joined r. subst joined r.
  unfold handle. rewrite Hio. cbn [fst on_event].
  assert (Ht : Js.truthy userId = true) by by apply bool_decide_eq_true.
  rewrite Ht.
  set (w1 := set_io _ w).
  rewrite (createNotification_ok f nid now data w1 (join sid userId rooms)) by
    (done || congruence).
  unfold w1.
  cbn [fst published db sent delivered io set_db set_io emits_to fmap list_fmap].
  cbn [default mbind list_bind]. rewrite app_nil_r.
  eexists. split; [done|]. unfold Datatypes.id.
  rewrite packets_to. cbn [room event payload].
  rewrite decide_True; [done|]. rewrite Hr, members_join, decide_True by done.
  set_solver.
Qed.

Lemma join_user_room_unchecked_witness :
  ∃ new, delivered
           (createNotification no_faults "n9" 50 SampleWorld.bob_likes_ann
              (handle "k7" (JoinUserRoom "ann") SampleWorld.world).1).1 = [] ++ new ∧
         filter (λ pk, to_socket pk = "k7") new
         = [{| to_socket := "k7"; p_event := "new_notification";
               p_payload := NotificationPayload
                              (new_row "n9" 50 SampleWorld.bob_likes_ann) |}].
Proof.
  apply (join_user_room_unchecked no_faults "k7" "ann" "n9" 50 SampleWorld.bob_likes_ann
           SampleWorld.world SampleWorld.rooms); (discriminate || reflexivity).
Defined.

Lemma members_leave (sid c r : string) rooms :
  members (leave sid c rooms) r
  = if decide (r = c) then members rooms c ∖ {[sid]} else members rooms r.
Proof.
  unfold leave. destruct (rooms !! c) as [s|] eqn:Hc.
  - unfold without. destruct (decide (s ∖ {[sid]} = ∅)) as [He|He].
    + unfold members. rewrite lookup_delete. destruct (decide (r = c)) as [->|Hne].
      * rewrite decide_True by done. rewrite Hc. by cbn.
      * by rewrite decide_False by done.
    + unfold members. rewrite lookup_insert. destruct (decide (r = c)) as [->|Hne].
      * rewrite decide_True by done. by rewrite Hc.
      * by rewrite decide_False by done.
  - destruct (decide (r = c)) as [->|Hne]; [|done].
    unfold members. rewrite Hc. cbn. set_solver.
Qed.

Lemma members_leave_all (sid r : string) rooms :
  members (leave_all sid rooms) r = members rooms r ∖ {[sid]}.
Proof.
  unfold leave_all, members. rewrite lookup_omap.
  destruct (rooms !! r) as [s|]; cbn; [|set_solver].
  unfold without. by destruct (decide (s ∖ {[sid]} = ∅)) as [-> |].
Qed.

(** Leaving a content room takes the socket out of that room and changes no
    other membership; a closed socket is taken out of every room and the
    other sockets stay where they are.  After either, an emit on the room
    writes no packet to the socket. *)
Theorem leave_and_disconnect (sid : string) rooms :
  (∀ c r, c ≠ "" →
     members (on_event sid (LeaveContentRoom c) rooms) r
     = if decide (r = c) then members rooms c ∖ {[sid]} else members rooms r) ∧
  (∀ r, members (on_event sid Disconnect rooms) r = members rooms r ∖ {[sid]}) ∧
  (∀ c e, c ≠ "" → room e = c →
     filter (λ pk, to_socket pk = sid)
       (packets (on_event sid (LeaveContentRoom c) rooms) e) = []) ∧
  (∀ e, filter (λ pk, to_socket pk = sid) (packets (on_event sid Disconnect rooms) e) = []).
Proof.
  assert (Ht : ∀ c, c ≠ "" → Js.truthy c = true) by (intros; by apply bool_decide_eq_true).
  split; [|split; [|split]].
  - intros c r Hc. cbn. rewrite Ht by done. apply members_leave.
  - intros r. apply members_leave_all.
  - intros c e Hc He. rewrite packets_to, He. cbn [on_event]. rewrite Ht by done.
    rewrite members_leave, (decide_True (P := c = c)) by done.
    rewrite decide_False; [done|set_solver].
  - intros e. rewrite packets_to. cbn [on_event]. rewrite members_leave_all.
    rewrite decide_False; [done|set_solver].
Qed.

Lemma leave_and_disconnect_witness :
  members (on_event "k1" (LeaveContentRoom "ann") SampleWorld.rooms) "bob"
  = members SampleWorld.rooms "bob".
Proof.
  destruct (leave_and_disconnect "k1" SampleWorld.rooms) as (H & _).
  rewrite (H "ann" "bob") by discriminate. reflexivity.
Defined.
End Delivery.

(** ** More on the feed answer, the fan-out and the formatter *)

Section More.
Import Feed Socket Spec.

(** On the personalized path [hasMore] is exact: it is true exactly when
    the next page of the same request holds an item. *)
Theorem feed_hasMore_exact (db : Db) (now : Z) (userId : string) (page limit : Z) :
  1 ≤ page → 0 < limit →
  merged db now userId limit ≠ [] →
  ∃ p, getFeed no_faults db now userId (PublicFeed.page_query page limit) = Json p ∧
       total p = Z.of_nat (length (merged db now userId limit)) ∧
       (hasMore p = true ↔
        items (getFeed no_faults db now userId (PublicFeed.page_query (page + 1) limit))
        ≠ []).
Proof.
  intros Hp Hl Hne.
  assert (Hq : ∀ pg, pg ≠ 0 →
            Js.or_default (q_page (PublicFeed.page_query pg limit)) 1 = pg ∧
            Js.or_default (q_limit (PublicFeed.page_query pg limit)) 10 = limit).
  { intros pg Hpg. cbn. by rewrite !decide_False by lia. }
  destruct (Hq page ltac:(lia)) as [Hq1 Hq2].
  destruct (Hq (page + 1) ltac:(lia)) as [Hq3 Hq4].
  rewrite !getFeed_personalized by (rewrite ?Hq1, ?Hq2, ?Hq3, ?Hq4; intros [? ?]; done || lia).
  unfold personalized. rewrite Hq1, Hq2, Hq3, Hq4. eexists. split; [done|].
  cbn [total hasMore items data]. split; [done|].
  rewrite bool_decide_eq_true.
  rewrite (slice_skip_take ((page + 1 - 1) * limit) limit) by nia.
  rewrite <- length_zero_iff_nil, length_take, length_drop. nia.
Qed.

Lemma feed_hasMore_exact_witness :
  ∃ p, getFeed no_faults Sample.three_db 10 "ann" (PublicFeed.page_query 1 2) = Json p ∧
       total p = 3.
Proof.
  destruct (feed_hasMore_exact Sample.three_db 10 "ann" 1 2) as (p & Hp & Ht & _).
  - lia.
  - lia.
  - vm_compute. discriminate.
  - exists p. split; [exact Hp|]. etrans; [exact Ht|reflexivity].
Defined.

Lemma has_row_of_spec (u : string) (owners : list string) :
  has_row_of u owners = true ↔ u ∈ owners.
Proof.
  unfold has_row_of. rewrite bool_decide_eq_true. split.
  - intros Hlen. destruct (filter (λ x, x = u) owners) as [|x l] eqn:E; [cbn in Hlen; lia|].
    assert (Hx : x ∈ filter (λ x, x = u) owners) by (rewrite E; left).
    apply list_elem_of_filter in Hx as [-> ?]. done.
  - intros Hin. assert (Hx : u ∈ filter (λ x, x = u) owners) by by apply list_elem_of_filter.
    destruct (filter _ owners); [by apply elem_of_nil in Hx|cbn; lia].
Qed.

Lemma feed_shape (f : Faults) (db : Db) (now : Z) (userId : string) (q : Query)
    (i : FeedItem) :
  i ∈ items (getFeed f db now userId q) →
  (∃ s, i = public_item s ∧ Js.or_default (q_page q) 1 = 1)
  ∨ (∃ k r, i = personal_item userId k r).
Proof.
  unfold getFeed.
  destruct (f FollowFindMany); [by intros ?%elem_of_nil|].
  destruct (f SnippetFindMany || f DocFindMany || f BugFindMany); [by intros ?%elem_of_nil|].
  destruct (bool_decide (length _ = 0%nat) && bool_decide _) eqn:E; cbn [items data].
  - apply andb_true_iff in E as [_ E%bool_decide_eq_true].
    intros (s & -> & Hs)%list_elem_of_fmap. left. by exists s.
  - intros Hi%slice_subseteq. rewrite merged_perm in Hi. unfold concatenated in Hi.
    rewrite !elem_of_app, !list_elem_of_fmap in Hi. right.
    destruct Hi as [(s & -> & Hs)|[(d & -> & Hd)|(b & -> & Hb)]]; eauto.
Qed.

(** The counts of a feed item are those of its row, and its flags tell
    whether the viewer has a Like or Bookmark row on it; an item without
    flags comes from the public fallback. *)
Theorem feed_flags (f : Faults) (db : Db) (now : Z) (userId : string) (q : Query)
    (i : FeedItem) :
  i ∈ items (getFeed f db now userId q) →
  let c := row_base (fi_row i) in
  likesCount i = length (likes c) ∧ commentsCount i = comments c ∧
  bookmarksCount i = length (bookmarks c) ∧
  (isLiked i = Some true → userId ∈ likes c) ∧
  (isLiked i = Some false → userId ∉ likes c) ∧
  (isBookmarked i = Some true → userId ∈ bookmarks c) ∧
  (isBookmarked i = Some false → userId ∉ bookmarks c) ∧
  (isLiked i = None ∨ isBookmarked i = None →
     Js.or_default (q_page q) 1 = 1 ∧ fi_type i = snippet).
Proof.
  intros Hi. pose proof (feed_shape f db now userId q i Hi) as [Hs|Hs].
  - destruct Hs as (s & -> & Hp). cbn. by repeat split.
  - destruct Hs as (k & r & ->). cbn. do 3 (split; [done|]).
    pose proof (has_row_of_spec userId (likes (row_base r))) as Hl.
    pose proof (has_row_of_spec userId (bookmarks (row_base r))) as Hb.
    split; [intros [= H]; by apply Hl|].
    split; [intros [= H] Hin; apply Hl in Hin; congruence|].
    split; [intros [= H]; by apply Hb|].
    split; [intros [= H] Hin; apply Hb in Hin; congruence|].
    by intros [?|?].
Qed.

Lemma feed_flags_witness :
  likesCount (personal_item "ann" doc (DocRow (Sample.a_doc "d1" "bob" 2))) = 0%nat.
Proof.
  apply (feed_flags no_faults Sample.three_db 10 "ann" default_query
           (personal_item "ann" doc (DocRow (Sample.a_doc "d1" "bob" 2)))).
  vm_compute. right. left.
Defined.
End More.

Section More2.
Import Socket Spec Formatter.
Implicit Types rooms : gmap string (gset string).

(** Without the assumption that nobody follows themselves: the author's
    room gets the event once for the author, and each room once more for
    each follow edge towards the author, so an author who follows
    themselves is sent the event twice.  The author's emit is the last. *)
Theorem fanout_counts (f : Faults) (a ev : string) (p : Payload) (w : World) rooms :
  f FollowFindMany = false → f SocketEmit = false →
  io w = Some rooms → NoDup (follows (db w)) →
  let r := emitToFollowers f a ev p w in
  ∃ new, sent r.1 = sent w ++ new ++ [{| room := a; event := ev; payload := p |}] ∧
         room <$> new = followers_of (db w) a ∧
         (∀ c, length (filter (λ e, room e = c)
                         (new ++ [{| room := a; event := ev; payload := p |}]))
               = ((if decide (edge c a ∈ follows (db w)) then 1 else 0)
                  + (if decide (c = a) then 1 else 0))%nat) ∧
         (edge a a ∈ follows (db w) →
            length (filter (λ e, room e = a)
                      (new ++ [{| room := a; event := ev; payload := p |}])) = 2%nat).
Proof.
  intros Hf1 Hf2 Hio Hnd r. subst r.
  rewrite (emitToFollowers_ok f a ev p w rooms Hf1 Hf2 Hio). cbn [fst published sent].
  exists (emits_to (followers_of (db w) a) ev p).
  assert (Hcount : ∀ c, length (filter (λ e, room e = c)
                    (emits_to (followers_of (db w) a) ev p
                     ++ [{| room := a; event := ev; payload := p |}]))
               = ((if decide (edge c a ∈ follows (db w)) then 1 else 0)
                  + (if decide (c = a) then 1 else 0))%nat).
  { intros c. rewrite filter_app, length_app.
    pose proof (count_follower_emits c a ev p (follows (db w))) as Hc.
    pose proof (count_author c a ev p) as Ha.
    unfold followers_of. rewrite Hc, count_nodup by done.
    unfold emits_to in Ha. rewrite list_fmap_singleton in Ha. rewrite Ha.
    destruct (decide (a = c)) as [-> |Hne]; [by rewrite (decide_True (P := c = c))|].
    by rewrite (decide_False (P := c = a)). }
  split; [|split; [|split]].
  - unfold emits_to. by rewrite fmap_app.
  - unfold emits_to. rewrite <- list_fmap_compose. apply list_fmap_id.
  - exact Hcount.
  - intros Hself. rewrite Hcount. by rewrite !decide_True.
Qed.

Lemma fanout_counts_witness :
  ∃ new, room <$> new = ["ann"] ∧
         sent (emitToFollowers no_faults "bob" "new-bug"
                 (BugPayload (Sample.a_bug "b1" "bob" 3 100)) SampleWorld.world).1
         = [] ++ new ++ [{| room := "bob"; event := "new-bug";
                            payload := BugPayload (Sample.a_bug "b1" "bob" 3 100) |}].
Proof.
  destruct (fanout_counts no_faults "bob" "new-bug"
              (BugPayload (Sample.a_bug "b1" "bob" 3 100))
              SampleWorld.world SampleWorld.rooms) as (new & Hs & Hr & _).
  - reflexivity.
  - reflexivity.
  - reflexivity.
  - apply NoDup_singleton.
  - exists new. split; [exact Hr|exact Hs].
Defined.

Lemma flag_anonymous (userId : option string) (rows : option (list string)) :
  userId = None ∨ userId = Some "" → flag userId rows = Some false.
Proof. by intros [-> | ->]. Qed.

Lemma flag_user (u : string) (rows : option (list string)) :
  u ≠ "" →
  flag (Some u) rows = (λ l, bool_decide (u ∈ l)) <$> rows.
Proof.
  intros Hu. unfold flag. replace (Js.truthy u) with true
    by (symmetry; by apply bool_decide_eq_true).
  destruct rows as [l|]; [|done]. cbn. f_equal. apply bool_decide_ext.
  rewrite Exists_exists. split; [by intros (x & Hx & ->)|by exists u].
Qed.

(** [formatContentWithInteractions] keeps the rows, their order and their
    counts.  For an anonymous caller (no user id, or an empty one) every
    flag is [false].  For a user, a flag is [true] exactly when the joined
    rows contain the user, and it is left undefined when the query did not
    join the rows. *)
Theorem formatter_flags (content : list Item) (userId : option string) :
  let out := formatContentWithInteractions content userId in
  o_content <$> out = i_content <$> content ∧
  o_likesCount <$> out = i_count_likes <$> content ∧
  o_commentsCount <$> out = i_count_comments <$> content ∧
  o_bookmarksCount <$> out = i_count_bookmarks <$> content ∧
  (userId = None ∨ userId = Some "" →
     Forall (λ o, o_isLiked o = Some false ∧ o_isBookmarked o = Some false) out) ∧
  (∀ u (k : nat) item, userId = Some u → u ≠ "" → content !! k = Some item →
     ∃ o, out !! k = Some o ∧
          (∀ l, i_likes item = Some l → o_isLiked o = Some (bool_decide (u ∈ l))) ∧
          (i_likes item = None → o_isLiked o = None) ∧
          (∀ l, i_bookmarks item = Some l →
                o_isBookmarked o = Some (bool_decide (u ∈ l))) ∧
          (i_bookmarks item = None → o_isBookmarked o = None)).
Proof.
  intros out. subst out. unfold formatContentWithInteractions.
  rewrite <- !list_fmap_compose.
  do 4 (split; [by apply list_fmap_ext|]). split.
  - intros Hanon. apply Forall_fmap, Forall_true. intros item.
    cbn [compose o_isLiked o_isBookmarked]. by rewrite !flag_anonymous.
  - intros u k item -> Hu Hk. rewrite list_lookup_fmap, Hk.
    eexists. split; [reflexivity|]. cbn [o_isLiked o_isBookmarked].
    rewrite !flag_user by done.
    repeat split; [intros l Hl|intros Hl|intros l Hl|intros Hl]; by rewrite Hl.
Qed.

Lemma formatter_flags_witness :
  ∃ o, formatContentWithInteractions [Formatter.sample] (Some "ann") !! 0%nat = Some o ∧
       o_isLiked o = Some true ∧ o_isBookmarked o = None.
Proof.
  destruct (formatter_flags [Formatter.sample] (Some "ann")) as (_ & _ & _ & _ & _ & H).
  destruct (H "ann" 0%nat Formatter.sample eq_refl) as (o & Ho & Hl & _ & _ & Hb).
  - discriminate.
  - reflexivity.
  - exists o. split; [exact Ho|]. split.
    + etrans; [apply (Hl ["ann"; "zoe"]); reflexivity|reflexivity].
    + apply Hb. reflexivity.
Defined.
End More2.
